(** * board/ste/stemmy/stemmy.c: the ATAG hand-off of the stemmy board

    A shallow embedding of the tagged-list code of [stemmy.c]: the walk over
    the list left by the primary bootloader, the two RAM extractors
    ([dram_init], [dram_init_banksize]), the serial number extractor
    ([parse_serial]), the two-pass filter and copy ([copy_atags]) and the
    re-emission into the kernel's parameter area ([setup_board_tags]).

    Memory is a flat array of bytes, as the C code sees it; the static
    variables of the file and the fields of [gd] it touches are the fields
    of one state record that every function threads through. *)

From Stdlib Require Import ZArith Lia List.
From Stdlib.Strings Require Import Ascii String Byte.
From stdpp Require Import base list gmap strings.

Local Open Scope Z_scope.

(** ** Machine integers *)

(** [u32] and [uint] are 32 bits wide; arithmetic on them wraps. *)
Definition wrap32 (x : Z) : Z := x mod 2 ^ 32.

(** ** Memory *)

(** Byte-addressed memory; the board runs with a flat address map, so every
    address reads as some byte. Addresses are integers: pointer arithmetic
    is not reduced modulo 2^32 (C defines it only inside an object), and the
    statements below place lists and blocks under 2^32. *)
Definition mem : Type := Z -> byte.

Definition byte_val (b : byte) : Z := Z.of_N (Byte.to_N b).

(** A little-endian 32-bit load, the way the ARM core reads a [u32]. *)
Definition load32 (m : mem) (p : Z) : Z :=
  byte_val (m p) + 2 ^ 8 * byte_val (m (p + 1))
  + 2 ^ 16 * byte_val (m (p + 2)) + 2 ^ 24 * byte_val (m (p + 3)).

(** [memcpy(dst, src, n)]: the [n] bytes at [src] appear at [dst]; the
    source bytes are those of the memory before the call. *)
Definition memcpy (m : mem) (dst src n : Z) : mem :=
  fun a => if (dst <=? a) && (a <? dst + n) then m (src + (a - dst)) else m a.

(** The [n] bytes found at [a]. *)
Definition read_bytes (m : mem) (a : Z) (n : nat) : list byte :=
  List.map (fun i => m (a + Z.of_nat i)) (seq 0 n).

(** ** What the headers fix *)

(** [stemmy.c] takes the tag identifiers, the layout of [struct tag], the
    capacity of the bank table, the width of [phys_size_t] and [EINVAL] from
    headers ([asm/setup.h], the board configuration, [asm/types.h],
    [errno.h]) that are not part of the sources at hand. They are parameters
    of the development: offsets are byte offsets ([offsetof]) of the 32-bit
    fields. *)
Class Headers : Type := {
  ATAG_NONE : Z;
  ATAG_CORE : Z;
  ATAG_MEM : Z;
  ATAG_INITRD : Z;
  ATAG_SERIAL : Z;
  ATAG_INITRD2 : Z;
  (** [offsetof(struct tag, hdr.size)], [offsetof(struct tag, hdr.tag)] and
      [offsetof(struct tag, u)] *)
  hdr_size_off : nat;
  hdr_tag_off : nat;
  u_off : nat;
  (** the fields of [struct tag_mem32] and of [struct tag_serialnr] *)
  mem_size_off : nat;
  mem_start_off : nat;
  serialnr_low_off : nat;
  serialnr_high_off : nat;
  CONFIG_NR_DRAM_BANKS : Z;
  (** the number of bits of [phys_size_t], the type of [gd->ram_size] *)
  phys_size_bits : Z;
  EINVAL : Z
}.

(** ** Results *)

(** A C function of the file either returns, or the model stops short of a
    result: the loop budget ran out, or the code stepped outside an array. *)
Inductive result (A : Type) : Type :=
  | Ok (a : A)
  | OutOfFuel
  | Undefined.
Arguments Ok {A} a.
Arguments OutOfFuel {A}.
Arguments Undefined {A}.

(** How the body of a [for] loop is left: by falling off its end or by
    [continue] (the loop goes on), or by [break]. *)
Inductive ctl : Type := Next | Break.

(** ** The state *)

Record state : Type := mkState {
  ram : mem;
  env : gmap string string;            (* the environment store *)
  fw_mach : Z;
  fw_atags : Z;
  fw_atags_copy : Z;                   (* NULL is 0 *)
  fw_atags_size : Z;
  gd_ram_size : Z;
  gd_bd_bi_dram : list (Z * Z);        (* (start, size) per bank *)
  gd_bd_bi_arch_number : Z;
  gd_bd_bi_boot_params : Z;
  gd_fdt_blob : Z
}.

Definition set_ram (m : mem) (s : state) : state :=
  mkState m (env s) (fw_mach s) (fw_atags s) (fw_atags_copy s)
    (fw_atags_size s) (gd_ram_size s) (gd_bd_bi_dram s)
    (gd_bd_bi_arch_number s) (gd_bd_bi_boot_params s) (gd_fdt_blob s).

Definition set_env (e : gmap string string) (s : state) : state :=
  mkState (ram s) e (fw_mach s) (fw_atags s) (fw_atags_copy s)
    (fw_atags_size s) (gd_ram_size s) (gd_bd_bi_dram s)
    (gd_bd_bi_arch_number s) (gd_bd_bi_boot_params s) (gd_fdt_blob s).

Definition set_fw_atags_copy (p : Z) (s : state) : state :=
  mkState (ram s) (env s) (fw_mach s) (fw_atags s) p
    (fw_atags_size s) (gd_ram_size s) (gd_bd_bi_dram s)
    (gd_bd_bi_arch_number s) (gd_bd_bi_boot_params s) (gd_fdt_blob s).

Definition set_fw_atags_size (n : Z) (s : state) : state :=
  mkState (ram s) (env s) (fw_mach s) (fw_atags s) (fw_atags_copy s)
    n (gd_ram_size s) (gd_bd_bi_dram s)
    (gd_bd_bi_arch_number s) (gd_bd_bi_boot_params s) (gd_fdt_blob s).

Definition set_gd_ram_size (n : Z) (s : state) : state :=
  mkState (ram s) (env s) (fw_mach s) (fw_atags s) (fw_atags_copy s)
    (fw_atags_size s) n (gd_bd_bi_dram s)
    (gd_bd_bi_arch_number s) (gd_bd_bi_boot_params s) (gd_fdt_blob s).

Definition set_gd_bd_bi_dram (t : list (Z * Z)) (s : state) : state :=
  mkState (ram s) (env s) (fw_mach s) (fw_atags s) (fw_atags_copy s)
    (fw_atags_size s) (gd_ram_size s) t
    (gd_bd_bi_arch_number s) (gd_bd_bi_boot_params s) (gd_fdt_blob s).

(** ** The C library and the environment *)

(** Modelled from the spec: the environment store ([env.h]) is not among the
    sources; it is "a simple key-value sink", a "key-value string store"
    (sections 1 and 6). [env_get] gives the value of a key or [NULL]. *)
Definition env_get (s : state) (key : string) : option string :=
  env s !! key.

(** Modelled from the spec: [env_set] writes the value of a key into the
    store (section 6). *)
Definition env_set (key value : string) (s : state) : state :=
  set_env (<[key := value]> (env s)) s.

Definition hex_digit (d : Z) : ascii :=
  match d with
  | 0 => "0" | 1 => "1" | 2 => "2" | 3 => "3" | 4 => "4" | 5 => "5"
  | 6 => "6" | 7 => "7" | 8 => "8" | 9 => "9" | 10 => "a" | 11 => "b"
  | 12 => "c" | 13 => "d" | 14 => "e" | _ => "f"
  end%char.

(** The digits of [v] in base 16, most significant first, without leading
    zeros ([0] is one digit); [n] bounds the number of digits. *)
Fixpoint hex_digits (n : nat) (v : Z) : list ascii :=
  match n with
  | O => []
  | S n' =>
      if v <? 16 then [hex_digit v]
      else hex_digits n' (v / 16) ++ [hex_digit (v mod 16)]
  end.

(** Modelled from the spec: [sprintf] is not among the sources. The
    conversion [%08x] takes an [unsigned int] and prints it in lowercase
    hexadecimal, "zero-padded to 8 digits" (sections 4.4 and 6): a minimum
    width, so a longer number is not cut. A 32-bit value has at most 8
    hexadecimal digits. *)
Definition fmt_08x (v : Z) : list ascii :=
  let ds := hex_digits 8 (wrap32 v) in
  repeat "0"%char (8 - length ds)%nat ++ ds.

(** [sprintf(buf, "%08x%08x", a, b)]: the characters written before the
    terminating NUL. *)
Definition sprintf_08x_08x (a b : Z) : string :=
  string_of_list_ascii (fmt_08x a ++ fmt_08x b).

(** What a string of hexadecimal digits denotes (a check on [fmt_08x]). *)
Definition hex_digit_val (c : ascii) : Z :=
  let n := Z.of_nat (nat_of_ascii c) in
  if n <? 58 then n - 48 else n - 87.

Definition hex_value (ds : list ascii) : Z :=
  fold_left (fun acc c => 16 * acc + hex_digit_val c) ds 0.

Section Stemmy.

Context `{H : Headers}.

(** ** struct tag *)

Definition hdr_size (m : mem) (t : Z) : Z := load32 m (t + Z.of_nat hdr_size_off).
Definition hdr_tag (m : mem) (t : Z) : Z := load32 m (t + Z.of_nat hdr_tag_off).
Definition u_mem_size (m : mem) (t : Z) : Z :=
  load32 m (t + Z.of_nat u_off + Z.of_nat mem_size_off).
Definition u_mem_start (m : mem) (t : Z) : Z :=
  load32 m (t + Z.of_nat u_off + Z.of_nat mem_start_off).
Definition serialnr_low (m : mem) (p : Z) : Z := load32 m (p + Z.of_nat serialnr_low_off).
Definition serialnr_high (m : mem) (p : Z) : Z := load32 m (p + Z.of_nat serialnr_high_off).

(** Modelled from the spec: [tag_next] of [asm/setup.h] is not among the
    sources. Each record is "advanced by current.size words from the
    previous" (section 4.1); a word is 4 bytes. *)
Definition tag_next (m : mem) (t : Z) : Z := t + 4 * hdr_size m t.

(** Modelled from the spec: the loop condition of [for_each_tag] of
    [asm/setup.h] is not among the sources. "The sequence ends when a record
    with tag identifier NONE is reached (exclusive)", and "a record whose
    declared size is zero must be treated as a terminal/malformed condition
    and the walk aborted" (section 4.1). *)
Definition for_each_tag_cond (m : mem) (t : Z) : bool :=
  negb (hdr_tag m t =? ATAG_NONE) && negb (hdr_size m t =? 0).

(** [for_each_tag(t, base) body]: the body sees the record at [t] and the
    loop state; condition and increment read the memory of the current state. *)
Fixpoint for_each_tag {S : Type} (ram_of : S -> mem)
    (body : Z -> S -> result (ctl * S)) (fuel : nat) (t : Z) (s : S) : result S :=
  match fuel with
  | O => OutOfFuel
  | Datatypes.S fuel' =>
      if for_each_tag_cond (ram_of s) t then
        match body t s with
        | Ok (Next, s') => for_each_tag ram_of body fuel' (tag_next (ram_of s') t) s'
        | Ok (Break, s') => Ok s'
        | OutOfFuel => OutOfFuel
        | Undefined => Undefined
        end
      else Ok s
  end.

(** ** stemmy.c *)

Definition save_boot_params (r0 r1 r2 r3 : Z) (s : state) : state :=
  mkState (ram s) (env s) r1 r2 (fw_atags_copy s)
    (fw_atags_size s) (gd_ram_size s) (gd_bd_bi_dram s)
    (gd_bd_bi_arch_number s) (gd_bd_bi_boot_params s) (gd_fdt_blob s).

(** The result is the list pointer, or [NULL] (0). *)
Definition fw_atags_get (s : state) : Z :=
  let tags := fw_atags s in
  if negb (hdr_tag (ram s) tags =? ATAG_CORE) then 0 else tags.

(** Arithmetic on [phys_size_t] wraps at its width. *)
Definition wrap_phys (x : Z) : Z := x mod 2 ^ phys_size_bits.

Definition dram_init_body (t : Z) (s : state) : result (ctl * state) :=
  if negb (hdr_tag (ram s) t =? ATAG_MEM) then Ok (Next, s)
  else Ok (Next, set_gd_ram_size (wrap_phys (gd_ram_size s + u_mem_size (ram s) t)) s).

Definition dram_init (fuel : nat) (s : state) : result (state * Z) :=
  let tags := fw_atags_get s in
  if tags =? 0 then Ok (s, - EINVAL)
  else
    match for_each_tag ram dram_init_body fuel tags s with
    | Ok s' => Ok (s', 0)
    | OutOfFuel => OutOfFuel
    | Undefined => Undefined
    end.

(** The loop state is the machine state and the local [bank]. A store
    outside the table is outside the model. *)
Definition dram_init_banksize_body (t : Z) (sb : state * Z) : result (ctl * (state * Z)) :=
  let '(s, bank) := sb in
  if negb (hdr_tag (ram s) t =? ATAG_MEM) then Ok (Next, (s, bank))
  else if (0 <=? bank) && (bank <? Z.of_nat (length (gd_bd_bi_dram s))) then
    let s' := set_gd_bd_bi_dram
                (<[Z.to_nat bank := (u_mem_start (ram s) t, u_mem_size (ram s) t)]>
                   (gd_bd_bi_dram s)) s in
    let bank' := bank + 1 in
    if bank' =? CONFIG_NR_DRAM_BANKS then Ok (Break, (s', bank'))
    else Ok (Next, (s', bank'))
  else Undefined.

Definition dram_init_banksize (fuel : nat) (s : state) : result (state * Z) :=
  let tags := fw_atags_get s in
  if tags =? 0 then Ok (s, - EINVAL)
  else
    match for_each_tag (fun sb => ram (fst sb)) dram_init_banksize_body fuel tags (s, 0) with
    | Ok (s', _) => Ok (s', 0)
    | OutOfFuel => OutOfFuel
    | Undefined => Undefined
    end.

Definition board_init (s : state) : state * Z :=
  (mkState (ram s) (env s) (fw_mach s) (fw_atags s) (fw_atags_copy s)
     (fw_atags_size s) (gd_ram_size s) (gd_bd_bi_dram s)
     (fw_mach s) (fw_atags s) (gd_fdt_blob s), 0).

(** [check_keys]: the two keys are read through the GPIO and device tree
    code, outside this file; [vol_up] and [vol_down] are what
    [dm_gpio_get_value] returns for them. *)
Definition check_keys (vol_up vol_down : Z) (fdt : Z) (s : state) : state :=
  if fdt =? 0 then s
  else
    let s1 := if vol_up =? 1 then env_set "bootcmd" "run recoverybootcmd" s else s in
    if vol_down =? 1 then env_set "preboot" "setenv preboot; run fastbootcmd" s1 else s1.

Definition parse_serial (serialnr : Z) (s : state) : state :=
  match env_get s "serial#" with
  | Some _ => s
  | None =>
      let serial := sprintf_08x_08x (serialnr_high (ram s) serialnr)
                                    (serialnr_low (ram s) serialnr) in
      env_set "serial#" serial s
  end.

Definition skip_atag (tag : Z) : bool :=
  (tag =? ATAG_NONE) || (tag =? ATAG_CORE) ||
  (tag =? ATAG_INITRD) || (tag =? ATAG_INITRD2).

(** The first loop of [copy_atags]. *)
Definition copy_atags_size_body (t : Z) (s : state) : result (ctl * state) :=
  if skip_atag (hdr_tag (ram s) t) then Ok (Next, s)
  else
    let s1 := if hdr_tag (ram s) t =? ATAG_SERIAL
              then parse_serial (t + Z.of_nat u_off) s else s in
    Ok (Next, set_fw_atags_size
                (wrap32 (fw_atags_size s1 + wrap32 (hdr_size (ram s1) t * 4))) s1).

(** The second loop of [copy_atags]; the loop state is the machine state and
    the local [copy]. *)
Definition copy_atags_copy_body (t : Z) (sc : state * Z) : result (ctl * (state * Z)) :=
  let '(s, copy) := sc in
  if skip_atag (hdr_tag (ram s) t) then Ok (Next, (s, copy))
  else
    let s' := set_ram (memcpy (ram s) copy t (wrap32 (hdr_size (ram s) t * 4))) s in
    Ok (Next, (s', tag_next (ram s') copy)).

Definition copy_atags_size_pass (fuel : nat) (tags : Z) (s : state) : result state :=
  for_each_tag ram copy_atags_size_body fuel tags s.

Definition copy_atags_copy_pass (fuel : nat) (tags : Z) (s : state) (copy : Z)
  : result (state * Z) :=
  for_each_tag (fun sc => ram (fst sc)) copy_atags_copy_body fuel tags (s, copy).

Section Malloc.

(** [malloc]: the address of the block handed out for a request of that
    many bytes, or [NULL] (0). *)
Variable malloc : Z -> Z.

Definition copy_atags (fuel : nat) (tags : Z) (s : state) : result state :=
  if tags =? 0 then Ok s
  else
    match copy_atags_size_pass fuel tags s with
    | Ok s1 =>
        if fw_atags_size s1 =? 0 then Ok s1
        else
          let copy := malloc (fw_atags_size s1) in
          if copy =? 0 then Ok s1
          else
            let s2 := set_fw_atags_copy copy s1 in
            match copy_atags_copy_pass fuel tags s2 copy with
            | Ok (s3, _) => Ok s3
            | OutOfFuel => OutOfFuel
            | Undefined => Undefined
            end
    | OutOfFuel => OutOfFuel
    | Undefined => Undefined
    end.

Definition misc_init_r (vol_up vol_down : Z) (fuel : nat) (s : state)
  : result (state * Z) :=
  match copy_atags fuel (fw_atags_get s) s with
  | Ok s1 => Ok (check_keys vol_up vol_down (gd_fdt_blob s1) s1, 0)
  | OutOfFuel => OutOfFuel
  | Undefined => Undefined
  end.

End Malloc.

(** [in_params] points at the caller's cursor; the cursor goes in and the
    advanced cursor comes out. *)
Definition setup_board_tags (s : state) (in_params : Z) : state * Z :=
  if fw_atags_copy s =? 0 then (s, in_params)
  else
    (set_ram (memcpy (ram s) in_params (fw_atags_copy s) (fw_atags_size s)) s,
     in_params + fw_atags_size s).

End Stemmy.

(** ** The list as a sequence of records *)

(** The view of the data model: a record is the sequence of its bytes,
    header included, and a list is its records in memory order. *)

Definition sumZ (l : list Z) : Z := fold_right Z.add 0 l.

Section Records.

Context `{H : Headers}.

(** The 32-bit field at byte offset [off] of a record. *)
Definition get32 (r : list byte) (off : nat) : Z :=
  byte_val (nth off r x00) + 2 ^ 8 * byte_val (nth (off + 1) r x00)
  + 2 ^ 16 * byte_val (nth (off + 2) r x00) + 2 ^ 24 * byte_val (nth (off + 3) r x00).

Definition rec_tag (r : list byte) : Z := get32 r hdr_tag_off.
Definition rec_size (r : list byte) : Z := get32 r hdr_size_off.
Definition rec_mem_size (r : list byte) : Z := get32 r (u_off + mem_size_off).
Definition rec_mem_start (r : list byte) : Z := get32 r (u_off + mem_start_off).

(** A record of a list: it holds its own header, its [size] field counts its
    4-byte words, and it is not the terminator. *)
Definition wf_record (r : list byte) : bool :=
  (hdr_tag_off + 4 <=? length r)%nat && (hdr_size_off + 4 <=? length r)%nat
  && (Z.of_nat (length r) =? 4 * rec_size r) && negb (rec_tag r =? ATAG_NONE).

(** A MEM record holds the two fields of its payload. *)
Definition wf_mem_record (r : list byte) : bool :=
  negb (rec_tag r =? ATAG_MEM)
  || ((u_off + mem_size_off + 4 <=? length r)%nat
      && (u_off + mem_start_off + 4 <=? length r)%nat).

Definition total_bytes (l : list (list byte)) : Z := Z.of_nat (length (concat l)).

(** The records [l] lie one after the other from address [a] on, and the
    record after the last one is tagged NONE. *)
Fixpoint tags_at (m : mem) (a : Z) (l : list (list byte)) : Prop :=
  match l with
  | [] => hdr_tag m a = ATAG_NONE
  | r :: l' => read_bytes m a (length r) = r /\ tags_at m (a + Z.of_nat (length r)) l'
  end.

(** One byte past the tag field of the terminator: what the walk reads lies
    below this address. *)
Definition src_end (a : Z) (l : list (list byte)) : Z :=
  a + total_bytes l + Z.of_nat hdr_tag_off + 4.

(** A source list: well-formed records at a non-null address, inside the
    32-bit address space. *)
Definition source_list (m : mem) (a : Z) (l : list (list byte)) : Prop :=
  forallb wf_record l = true /\ tags_at m a l /\ 0 < a /\ src_end a l <= 2 ^ 32.

Definition first_is_core (l : list (list byte)) : bool :=
  match l with
  | r :: _ => rec_tag r =? ATAG_CORE
  | [] => false
  end.

(** The records [copy_atags] keeps, and the MEM records. *)
Definition kept (l : list (list byte)) : list (list byte) :=
  List.filter (fun r => negb (skip_atag (rec_tag r))) l.

Definition mem_records (l : list (list byte)) : list (list byte) :=
  List.filter (fun r => rec_tag r =? ATAG_MEM) l.

Definition mem_sizes (l : list (list byte)) : list Z :=
  List.map rec_mem_size (mem_records l).

Definition mem_banks (l : list (list byte)) : list (Z * Z) :=
  List.map (fun r => (rec_mem_start r, rec_mem_size r)) (mem_records l).

(** The filter in the words of the specification: the Regenerate set, and
    the records whose tag is outside it, in source order. *)
Definition regenerate_set : list Z := [ATAG_NONE; ATAG_CORE; ATAG_INITRD; ATAG_INITRD2].

Definition pass_through (l : list (list byte)) : list (list byte) :=
  List.filter (fun r => negb (bool_decide (rec_tag r ∈ regenerate_set))) l.

(** The block [malloc] hands out for [n] bytes lies in the address space and
    away from the source list. *)
Definition block_ok (p n a : Z) (l : list (list byte)) : Prop :=
  0 < p /\ p + n <= 2 ^ 32 /\ (p + n <= a \/ src_end a l <= p).

(** The address of the [k]-th record of the chain that starts at [t]. *)
Fixpoint nth_tag (m : mem) (t : Z) (k : nat) : Z :=
  match k with
  | O => t
  | S k' => nth_tag m (tag_next m t) k'
  end.


End Records.

(** ** A concrete board *)

(** The identifiers and the layout of the ARM tagged list ([size] before
    [tag] in the header, [size] before [start] in a MEM payload), with a
    table of two banks. [phys_size_t] is [unsigned long], 32 bits on this
    ARMv7 board, like the [ulong] that holds the list pointer. *)
Definition arm_headers : Headers := {|
  ATAG_NONE := 0x00000000;
  ATAG_CORE := 0x54410001;
  ATAG_MEM := 0x54410002;
  ATAG_INITRD := 0x54410005;
  ATAG_SERIAL := 0x54410006;
  ATAG_INITRD2 := 0x54420005;
  hdr_size_off := 0;
  hdr_tag_off := 4;
  u_off := 8;
  mem_size_off := 0;
  mem_start_off := 4;
  serialnr_low_off := 0;
  serialnr_high_off := 4;
  CONFIG_NR_DRAM_BANKS := 2;
  phys_size_bits := 32;
  EINVAL := 22
|}.

Definition byte_of_Z (z : Z) : byte :=
  match Byte.of_N (Z.to_N (z mod 256)) with
  | Some b => b
  | None => x00
  end.

Definition le32_bytes (v : Z) : list byte :=
  [byte_of_Z v; byte_of_Z (v / 2 ^ 8); byte_of_Z (v / 2 ^ 16); byte_of_Z (v / 2 ^ 24)].

(** A record in the layout of [arm_headers]: size in words, tag, payload. *)
Definition mk_tag (tag : Z) (payload : list Z) : list byte :=
  le32_bytes (2 + Z.of_nat (length payload)) ++ le32_bytes tag
  ++ List.flat_map le32_bytes payload.

(** A memory that holds [bs] at [base] and zeros elsewhere. *)
Definition mem_of_bytes (base : Z) (bs : list byte) : mem :=
  fun a => if (base <=? a) && (a <? base + Z.of_nat (length bs))
           then nth (Z.to_nat (a - base)) bs x00 else x00.

(** The state a boot starts from: the statics of the file as initialised,
    [gd] zeroed, a bank table of [banks] entries. *)
Definition boot_state (m : mem) (r1 r2 : Z) (banks : nat) : state :=
  mkState m ∅ r1 r2 0 0 0 (repeat (0, 0) banks) 0 0 0.

(** The list of section 8: CORE, MEM, SERIALNR, INITRD, then the terminator
    (a NONE header with size 0). *)
Definition ex_core : list byte := mk_tag 0x54410001 [].
Definition ex_mem : list byte := mk_tag 0x54410002 [0x40000000; 0x80000000].
Definition ex_serial : list byte := mk_tag 0x54410006 [1; 0].
Definition ex_initrd : list byte := mk_tag 0x54410005 [0x82000000; 0x100000].
Definition ex_none : list byte := le32_bytes 0 ++ le32_bytes 0.

Definition ex_list : list (list byte) := [ex_core; ex_mem; ex_serial; ex_initrd].

Definition ex_ram : mem := mem_of_bytes 0x100 (concat ex_list ++ ex_none).

Definition ex_state : state := boot_state ex_ram 0 0x100 2.

(** Three MEM records for a table of two banks. *)
Definition ex_mem_a : list byte := mk_tag 0x54410002 [0x10000000; 0x00000000].
Definition ex_mem_b : list byte := mk_tag 0x54410002 [0x08000000; 0x20000000].
Definition ex_mem_c : list byte := mk_tag 0x54410002 [0x04000000; 0x40000000].

Definition ex_list_banks : list (list byte) := [ex_core; ex_mem_a; ex_mem_b; ex_mem_c].

Definition ex_state_banks : state :=
  boot_state (mem_of_bytes 0x100 (concat ex_list_banks ++ ex_none)) 0 0x100 2.

(** Two MEM records of 2 GiB each. *)
Definition ex_mem_lo : list byte := mk_tag 0x54410002 [0x80000000; 0x00000000].
Definition ex_mem_hi : list byte := mk_tag 0x54410002 [0x80000000; 0x80000000].

Definition ex_list_4g : list (list byte) := [ex_core; ex_mem_lo; ex_mem_hi].

Definition ex_state_4g : state :=
  boot_state (mem_of_bytes 0x100 (concat ex_list_4g ++ ex_none)) 0 0x100 2.

(** A SERIALNR record with low = 0x1 and high = 0x2, at [0x100]. *)
Definition ex_state_serial : state :=
  boot_state (mem_of_bytes 0x100 (mk_tag 0x54410006 [1; 2])) 0 0x100 2.

(** A list whose first record is not CORE. *)
Definition ex_state_invalid : state :=
  boot_state (mem_of_bytes 0x100 (ex_mem ++ ex_none)) 0 0x100 2.

(** A memory full of two-word records tagged 7 that never ends, but for the
    record at [0x120], which declares size 0. *)
Definition ex_ram_zero_size : mem :=
  fun a => if a =? 0x120 then x00
           else if a mod 8 =? 0 then x02
           else if a mod 8 =? 4 then x07 else x00.

Definition ex_state_zero_size : state := boot_state ex_ram_zero_size 0 0x100 2.

(** An allocator that hands out the block at [0x1000]. *)
Definition ex_malloc (n : Z) : Z := 0x1000.

(** The state after [copy_atags] has run on [ex_state]. *)
Definition ex_state_copied : state :=
  match @copy_atags arm_headers ex_malloc 10 0x100 ex_state with
  | Ok s => s
  | _ => ex_state
  end.

(** The state whose source list is the buffer [copy_atags] left in
    [ex_state_copied], read back byte for byte and closed by a terminator. *)
Definition ex_state_fed_back : state :=
  boot_state
    (mem_of_bytes 0x200
       (read_bytes (ram ex_state_copied) (fw_atags_copy ex_state_copied)
          (Z.to_nat (fw_atags_size ex_state_copied)) ++ ex_none))
    0 0x200 2.




(** ** The walk, record by record *)

Section Walks.

Context `{H : Headers}.



End Walks.

(** ** The keys *)

Section Keys.

(** [request_gpio_keys] and [check_keys] call libfdt and the GPIO uclass,
    which are outside this file. Their functions are parameters: the two
    lookups read the device tree blob only; requesting a GPIO changes the
    state [dm_state] of the drivers and hands back the return code and the
    descriptor as filled in; reading a GPIO depends on that state. *)
Variable FDT_ERR_NOTFOUND : Z.
Variable fdt_node_offset_by_compatible : Z -> Z -> string -> Z.
Variable fdt_subnode_offset : Z -> Z -> string -> Z.
Variable dm_state : Type.
Variable gpio_desc : Type.
Variable gpio_desc_zero : gpio_desc.
Variable gpio_request_by_name_nodev : dm_state -> Z -> gpio_desc -> dm_state * Z * gpio_desc.
Variable dm_gpio_get_value : dm_state -> gpio_desc -> Z.

Record gpio_keys : Type := mk_gpio_keys {
  vol_up : gpio_desc;
  vol_down : gpio_desc
}.

(** The return code of the request is only logged. *)
Definition request_gpio_key (w : dm_state) (node : Z) (name : string) (desc : gpio_desc)
  : dm_state * gpio_desc :=
  if node <? 0 then (w, desc)
  else
    let '(w', ret, desc') := gpio_request_by_name_nodev w node desc in
    (w', desc').

(** The [while] loop of [request_gpio_keys]; the loop state is [offset] and
    the two nodes found so far. *)
Fixpoint request_gpio_keys_loop (fuel : nat) (fdt offset vol_up_node vol_down_node : Z)
  : result (Z * Z) :=
  match fuel with
  | O => OutOfFuel
  | S fuel' =>
      if negb (offset =? - FDT_ERR_NOTFOUND) then
        let vol_up_node :=
          if vol_up_node <? 0 then fdt_subnode_offset fdt offset "volume-up"
          else vol_up_node in
        let vol_down_node :=
          if vol_down_node <? 0 then fdt_subnode_offset fdt offset "volume-down"
          else vol_down_node in
        if (vol_up_node >=? 0) && (vol_down_node >=? 0)
        then Ok (vol_up_node, vol_down_node)
        else request_gpio_keys_loop fuel' fdt
               (fdt_node_offset_by_compatible fdt offset "gpio-keys")
               vol_up_node vol_down_node
      else Ok (vol_up_node, vol_down_node)
  end.

Definition request_gpio_keys (fuel : nat) (w : dm_state) (fdt : Z) (keys : gpio_keys)
  : result (dm_state * gpio_keys) :=
  match request_gpio_keys_loop fuel fdt
          (fdt_node_offset_by_compatible fdt (-1) "gpio-keys")
          (- FDT_ERR_NOTFOUND) (- FDT_ERR_NOTFOUND) with
  | Ok (vol_up_node, vol_down_node) =>
      let '(w1, up) := request_gpio_key w vol_up_node "volume-up" (vol_up keys) in
      let '(w2, down) := request_gpio_key w1 vol_down_node "volume-down" (vol_down keys) in
      Ok (w2, mk_gpio_keys up down)
  | OutOfFuel => OutOfFuel
  | Undefined => Undefined
  end.

(** [check_keys] with its calls into the device tree and the GPIOs; the
    writes to the environment are those of [check_keys] above. *)
Definition check_keys_dm (fuel : nat) (w : dm_state) (fdt : Z) (s : state)
  : result (dm_state * state) :=
  if fdt =? 0 then Ok (w, s)
  else
    match request_gpio_keys fuel w fdt (mk_gpio_keys gpio_desc_zero gpio_desc_zero) with
    | Ok (w', keys) =>
        let s1 := if dm_gpio_get_value w' (vol_up keys) =? 1
                  then env_set "bootcmd" "run recoverybootcmd" s else s in
        let s2 := if dm_gpio_get_value w' (vol_down keys) =? 1
                  then env_set "preboot" "setenv preboot; run fastbootcmd" s1 else s1 in
        Ok (w', s2)
    | OutOfFuel => OutOfFuel
    | Undefined => Undefined
    end.

(** The gpio-keys nodes of a tree, in the order the lookup by compatible
    yields them from [offset] on. *)
Fixpoint gpio_keys_nodes_at (fdt offset : Z) (nodes : list Z) : Prop :=
  match nodes with
  | [] => offset = - FDT_ERR_NOTFOUND
  | o :: rest =>
      offset = o /\ o <> - FDT_ERR_NOTFOUND /\
      gpio_keys_nodes_at fdt (fdt_node_offset_by_compatible fdt o "gpio-keys") rest
  end.

(** The subnode called [name] of the first of [nodes] that has one, or what
    the lookup said last (starting from [init]). *)
Definition first_subnode (fdt : Z) (name : string) (nodes : list Z) (init : Z) : Z :=
  fold_left (fun cur o => if cur <? 0 then fdt_subnode_offset fdt o name else cur)
    nodes init.

End Keys.

(** ** Frames *)

(** What the sizing pass may change: [fw_atags_size], and [serial#] when it
    is not set. *)
Definition size_pass_keeps (s s' : state) : Prop :=
  ram s' = ram s /\ fw_mach s' = fw_mach s /\ fw_atags s' = fw_atags s /\
  fw_atags_copy s' = fw_atags_copy s /\ gd_ram_size s' = gd_ram_size s /\
  gd_bd_bi_dram s' = gd_bd_bi_dram s /\
  gd_bd_bi_arch_number s' = gd_bd_bi_arch_number s /\
  gd_bd_bi_boot_params s' = gd_bd_bi_boot_params s /\
  gd_fdt_blob s' = gd_fdt_blob s /\
  (forall k : string, k <> "serial#"%string -> env s' !! k = env s !! k) /\
  (forall v, env s !! "serial#"%string = Some v -> env s' = env s) /\
  fw_atags_size s' mod 4 = fw_atags_size s mod 4.

(** ** More of the record view *)

Section SerialRecords.

Context `{H : Headers}.

Definition rec_serial_low (r : list byte) : Z := get32 r (u_off + serialnr_low_off).
Definition rec_serial_high (r : list byte) : Z := get32 r (u_off + serialnr_high_off).

(** A SERIAL record holds the two fields of its payload. *)
Definition wf_serial_record (r : list byte) : bool :=
  negb (rec_tag r =? ATAG_SERIAL)
  || ((u_off + serialnr_low_off + 4 <=? length r)%nat
      && (u_off + serialnr_high_off + 4 <=? length r)%nat).

Definition is_serial (r : list byte) : bool := rec_tag r =? ATAG_SERIAL.

(** The string [parse_serial] formats from a SERIAL record. *)
Definition serial_string (r : list byte) : string :=
  sprintf_08x_08x (rec_serial_high r) (rec_serial_low r).

(** The environment once [parse_serial] has seen the record [r]. *)
Definition serial_seen (r : list byte) (e : gmap string string) : gmap string string :=
  match e !! "serial#"%string with
  | Some _ => e
  | None => <["serial#"%string := serial_string r]> e
  end.

(** The environment once the sizing pass has seen the records [l]. *)
Fixpoint serial_pass (l : list (list byte)) (e : gmap string string)
  : gmap string string :=
  match l with
  | [] => e
  | r :: l' =>
      serial_pass l'
        (if negb (skip_atag (rec_tag r)) && is_serial r then serial_seen r e else e)
  end.

End SerialRecords.

(** A device tree with three gpio-keys nodes, at 100, 200 and 300: the first
    has only a volume-down subnode (110), the second has both (210 and 220),
    the third a volume-up subnode (310). *)
Definition ex_fdt_next (fdt offset : Z) (compatible : string) : Z :=
  if offset =? -1 then 100
  else if offset =? 100 then 200
  else if offset =? 200 then 300
  else -1.

Definition ex_fdt_subnode (fdt offset : Z) (name : string) : Z :=
  if String.eqb name "volume-up" then
    (if offset =? 200 then 210 else if offset =? 300 then 310 else -1)
  else if String.eqb name "volume-down" then
    (if offset =? 100 then 110 else if offset =? 200 then 220 else -1)
  else -1.

(** GPIOs for it: the driver state is the list of the nodes requested so
    far, a descriptor is the node it was requested for, and the key of node
    210 is held down. *)
Definition ex_gpio_request (w : list Z) (node : Z) (desc : Z) : list Z * Z * Z :=
  (w ++ [node], 0, node).

Definition ex_gpio_value (w : list Z) (desc : Z) : Z :=
  if desc =? 210 then 1 else 0.

(** A list with two SERIAL records, and a second allocator. *)
Definition ex_serial_b : list byte := mk_tag 0x54410006 [5; 6].

Definition ex_list_serials : list (list byte) := [ex_core; ex_serial; ex_serial_b].

Definition ex_state_serials : state :=
  boot_state (mem_of_bytes 0x100 (concat ex_list_serials ++ ex_none)) 0 0x100 2.

Definition ex_malloc2 (n : Z) : Z := 0x3000.

(** * Properties *)

(** ** Bytes and words *)

Lemma byte_val_range (b : byte) : 0 <= byte_val b < 256.
Proof. unfold byte_val. pose proof (Byte.to_N_bounded b). lia. Qed.

Lemma load32_range (m : mem) (p : Z) : 0 <= load32 m p < 2 ^ 32.
Proof.
  unfold load32.
  pose proof (byte_val_range (m p)). pose proof (byte_val_range (m (p + 1))).
  pose proof (byte_val_range (m (p + 2))). pose proof (byte_val_range (m (p + 3))).
  lia.
Qed.

Lemma wrap32_small (x : Z) : 0 <= x < 2 ^ 32 -> wrap32 x = x.
Proof. intros Hx. unfold wrap32. apply Z.mod_small. exact Hx. Qed.

Lemma read_bytes_length (m : mem) (a : Z) (n : nat) : length (read_bytes m a n) = n.
Proof. unfold read_bytes. rewrite List.length_map, List.length_seq. reflexivity. Qed.

Lemma read_bytes_nth (m : mem) (a : Z) (n i : nat) (d : byte) :
  (i < n)%nat -> nth i (read_bytes m a n) d = m (a + Z.of_nat i).
Proof.
  intros Hi. unfold read_bytes.
  rewrite (nth_indep _ d (m (a + Z.of_nat 0%nat))) by (rewrite List.length_map, List.length_seq; lia).
  rewrite (List.map_nth (fun i => m (a + Z.of_nat i)) (seq 0 n) 0%nat i).
  rewrite List.seq_nth by lia. reflexivity.
Qed.

Lemma read_bytes_ext (m m' : mem) (a : Z) (n : nat) :
  (forall x, a <= x < a + Z.of_nat n -> m' x = m x) ->
  read_bytes m' a n = read_bytes m a n.
Proof.
  intros Hext. unfold read_bytes. apply List.map_ext_in.
  intros i Hi. apply List.in_seq in Hi. apply Hext. lia.
Qed.

Lemma read_bytes_app (m : mem) (a : Z) (n1 n2 : nat) :
  read_bytes m a (n1 + n2) = read_bytes m a n1 ++ read_bytes m (a + Z.of_nat n1) n2.
Proof.
  apply (List.nth_ext _ _ x00 x00).
  - rewrite List.length_app, !read_bytes_length. reflexivity.
  - intros i Hi. rewrite read_bytes_length in Hi.
    rewrite read_bytes_nth by lia.
    destruct (Nat.lt_ge_cases i n1) as [Hlt | Hge].
    + rewrite List.app_nth1 by (rewrite read_bytes_length; lia).
      rewrite read_bytes_nth by lia. reflexivity.
    + rewrite List.app_nth2 by (rewrite read_bytes_length; lia).
      rewrite read_bytes_length, read_bytes_nth by lia. f_equal. lia.
Qed.

Lemma memcpy_outside (m : mem) (dst src n x : Z) :
  ~ (dst <= x < dst + n) -> memcpy m dst src n x = m x.
Proof.
  intros Hx. unfold memcpy.
  destruct (dst <=? x) eqn:E1; destruct (x <? dst + n) eqn:E2; simpl; try reflexivity.
  exfalso. apply Hx. lia.
Qed.

Lemma memcpy_inside (m : mem) (dst src n x : Z) :
  dst <= x < dst + n -> memcpy m dst src n x = m (src + (x - dst)).
Proof.
  intros Hx. unfold memcpy.
  replace (dst <=? x) with true by (symmetry; apply Z.leb_le; lia).
  replace (x <? dst + n) with true by (symmetry; apply Z.ltb_lt; lia).
  reflexivity.
Qed.

Lemma memcpy_read_bytes (m : mem) (dst src : Z) (n : nat) :
  read_bytes (memcpy m dst src (Z.of_nat n)) dst n = read_bytes m src n.
Proof.
  unfold read_bytes. apply List.map_ext_in. intros i Hi. apply List.in_seq in Hi.
  rewrite memcpy_inside by lia. f_equal. lia.
Qed.

Lemma load32_ext (m m' : mem) (p : Z) :
  (forall x, p <= x < p + 4 -> m' x = m x) -> load32 m' p = load32 m p.
Proof.
  intros Hext. unfold load32.
  rewrite (Hext p), (Hext (p + 1)), (Hext (p + 2)), (Hext (p + 3)) by lia.
  reflexivity.
Qed.

Section Facts.

Context `{H : Headers}.

Lemma load32_get32 (m : mem) (a : Z) (r : list byte) (off : nat) :
  read_bytes m a (length r) = r -> (off + 4 <= length r)%nat ->
  load32 m (a + Z.of_nat off) = get32 r off.
Proof.
  intros Hr Hoff. unfold load32, get32. rewrite <- Hr at 1 2 3 4.
  rewrite !read_bytes_nth by lia.
  repeat (f_equal; try lia).
Qed.

(** ** Records in memory *)

Lemma wf_record_spec (r : list byte) :
  wf_record r = true ->
  (hdr_tag_off + 4 <= length r)%nat /\ (hdr_size_off + 4 <= length r)%nat /\
  Z.of_nat (length r) = 4 * rec_size r /\ rec_tag r <> ATAG_NONE.
Proof.
  unfold wf_record. rewrite !andb_true_iff, negb_true_iff.
  intros [[[H1 H2] H3] H4].
  apply Nat.leb_le in H1. apply Nat.leb_le in H2.
  apply Z.eqb_eq in H3. apply Z.eqb_neq in H4. auto.
Qed.

Lemma total_bytes_cons (r : list byte) (l : list (list byte)) :
  total_bytes (r :: l) = Z.of_nat (length r) + total_bytes l.
Proof. unfold total_bytes. simpl. rewrite List.length_app. lia. Qed.

Lemma to_nat_total_bytes (l : list (list byte)) :
  Z.to_nat (total_bytes l) = length (concat l).
Proof. unfold total_bytes. apply Nat2Z.id. Qed.

Lemma total_bytes_nonneg (l : list (list byte)) : 0 <= total_bytes l.
Proof. unfold total_bytes. lia. Qed.

Lemma kept_cons (r : list byte) (l : list (list byte)) :
  kept (r :: l) = if skip_atag (rec_tag r) then kept l else r :: kept l.
Proof. unfold kept. simpl. destruct (skip_atag (rec_tag r)); reflexivity. Qed.

Lemma total_bytes_kept_le (l : list (list byte)) : total_bytes (kept l) <= total_bytes l.
Proof.
  induction l as [|r l IH].
  - simpl. lia.
  - rewrite kept_cons. destruct (skip_atag (rec_tag r));
      rewrite ?total_bytes_cons; lia.
Qed.

Lemma tags_at_head (m : mem) (a : Z) (r : list byte) (l : list (list byte)) :
  tags_at m a (r :: l) -> wf_record r = true ->
  hdr_tag m a = rec_tag r /\ hdr_size m a = rec_size r /\
  tag_next m a = a + Z.of_nat (length r) /\ for_each_tag_cond m a = true.
Proof.
  intros [Hr _] Hwf. apply wf_record_spec in Hwf as (Ht & Hs & Hlen & Hnone).
  assert (Htag : hdr_tag m a = rec_tag r) by (apply load32_get32; assumption).
  assert (Hsize : hdr_size m a = rec_size r) by (apply load32_get32; assumption).
  repeat split; try assumption.
  - unfold tag_next. rewrite Hsize. lia.
  - unfold for_each_tag_cond. rewrite Htag, Hsize.
    apply andb_true_iff. split; apply negb_true_iff, Z.eqb_neq; [assumption | lia].
Qed.

Lemma tags_at_ext (m m' : mem) (l : list (list byte)) :
  forall a, (forall x, a <= x < src_end a l -> m' x = m x) ->
  tags_at m a l -> tags_at m' a l.
Proof.
  induction l as [|r l IH]; intros a Hext Hl.
  - simpl in *. rewrite <- Hl. unfold hdr_tag. apply load32_ext.
    intros x Hx. apply Hext. unfold src_end, total_bytes. simpl. lia.
  - destruct Hl as [Hr Hl]. split.
    + rewrite <- Hr at 2. apply read_bytes_ext. intros x Hx. apply Hext.
      unfold src_end. rewrite total_bytes_cons.
      pose proof (total_bytes_nonneg l). lia.
    + apply IH; [|assumption]. intros x Hx. apply Hext.
      unfold src_end in *. rewrite total_bytes_cons. lia.
Qed.

(** ** One turn of the loop *)

Lemma for_each_tag_nil {St : Type} (ram_of : St -> mem)
    (body : Z -> St -> result (ctl * St)) (fuel : nat) (a : Z) (s : St) :
  tags_at (ram_of s) a [] -> for_each_tag ram_of body (S fuel) a s = Ok s.
Proof.
  simpl. intros Hnone. unfold for_each_tag_cond. rewrite Hnone, Z.eqb_refl.
  reflexivity.
Qed.

Lemma for_each_tag_cons {St : Type} (ram_of : St -> mem)
    (body : Z -> St -> result (ctl * St)) (fuel : nat) (a : Z) (s : St)
    (r : list byte) (l : list (list byte)) :
  tags_at (ram_of s) a (r :: l) -> wf_record r = true ->
  for_each_tag ram_of body (S fuel) a s =
  match body a s with
  | Ok (Next, s') => for_each_tag ram_of body fuel (tag_next (ram_of s') a) s'
  | Ok (Break, s') => Ok s'
  | OutOfFuel => OutOfFuel
  | Undefined => Undefined
  end.
Proof.
  intros Hl Hwf. destruct (tags_at_head _ _ _ _ Hl Hwf) as (_ & _ & _ & Hc).
  simpl. rewrite Hc. reflexivity.
Qed.

(** ** The first pass of copy_atags *)

Lemma set_env_id (s : state) : set_env (env s) s = s.
Proof. destruct s. reflexivity. Qed.

Lemma parse_serial_frame (p : Z) (s : state) : exists e, parse_serial p s = set_env e s.
Proof.
  unfold parse_serial. destruct (env_get s "serial#").
  - exists (env s). symmetry. apply set_env_id.
  - eexists. reflexivity.
Qed.

Lemma size_body_kept (a : Z) (s : state) (r : list byte) :
  hdr_tag (ram s) a = rec_tag r -> hdr_size (ram s) a = rec_size r ->
  Z.of_nat (length r) = 4 * rec_size r -> skip_atag (rec_tag r) = false ->
  0 <= fw_atags_size s -> fw_atags_size s + Z.of_nat (length r) < 2 ^ 32 ->
  exists e1, copy_atags_size_body a s =
             Ok (Next, set_fw_atags_size (fw_atags_size s + Z.of_nat (length r))
                         (set_env e1 s)).
Proof.
  intros Htag Hsize Hlen Hskip Hlo Hhi. unfold copy_atags_size_body.
  rewrite Htag, Hskip.
  set (s1 := if rec_tag r =? ATAG_SERIAL
             then parse_serial (a + Z.of_nat u_off) s else s).
  assert (Hs1 : exists e1, s1 = set_env e1 s).
  { subst s1. destruct (rec_tag r =? ATAG_SERIAL).
    - apply parse_serial_frame.
    - exists (env s). symmetry. apply set_env_id. }
  destruct Hs1 as [e1 Hs1]. rewrite Hs1. exists e1.
  cbn [ram set_env fw_atags_size]. rewrite Hsize.
  replace (rec_size r * 4) with (Z.of_nat (length r)) by lia.
  rewrite (wrap32_small (Z.of_nat (length r))) by lia.
  rewrite wrap32_small by lia. reflexivity.
Qed.

Lemma size_body_skip (a : Z) (s : state) (r : list byte) :
  hdr_tag (ram s) a = rec_tag r -> skip_atag (rec_tag r) = true ->
  copy_atags_size_body a s = Ok (Next, s).
Proof.
  intros Htag Hskip. unfold copy_atags_size_body. rewrite Htag, Hskip. reflexivity.
Qed.

Lemma size_pass_spec (l : list (list byte)) :
  forall (a : Z) (s : state) (fuel : nat),
    forallb wf_record l = true -> tags_at (ram s) a l ->
    0 <= fw_atags_size s -> fw_atags_size s + total_bytes (kept l) < 2 ^ 32 ->
    (length l < fuel)%nat ->
    exists e, copy_atags_size_pass fuel a s =
              Ok (set_fw_atags_size (fw_atags_size s + total_bytes (kept l)) (set_env e s)).
Proof.
  unfold copy_atags_size_pass.
  induction l as [|r l IH]; intros a s fuel Hwf Hl Hlo Hhi Hfuel;
    (destruct fuel as [|fuel]; [simpl in Hfuel; lia|]).
  - rewrite for_each_tag_nil by assumption. exists (env s).
    destruct s. unfold total_bytes. simpl. rewrite Z.add_0_r. reflexivity.
  - simpl in Hwf, Hfuel. apply andb_true_iff in Hwf as [Hr Hwf].
    rewrite (for_each_tag_cons _ _ _ _ _ r l) by assumption.
    destruct (tags_at_head _ _ _ _ Hl Hr) as (Htag & Hsize & Hnext & _).
    destruct (wf_record_spec _ Hr) as (_ & _ & Hlen & _).
    destruct Hl as [_ Hl]. rewrite kept_cons in *.
    destruct (skip_atag (rec_tag r)) eqn:Hskip.
    + rewrite (size_body_skip a s r) by assumption.
      rewrite Hnext. apply IH; try assumption. lia.
    + rewrite total_bytes_cons in *. pose proof (total_bytes_nonneg (kept l)).
      destruct (size_body_kept a s r) as [e1 He1]; try assumption; try lia.
      rewrite He1. cbn [ram set_env set_fw_atags_size]. rewrite Hnext.
      edestruct (IH (a + Z.of_nat (length r))
                    (set_fw_atags_size (fw_atags_size s + Z.of_nat (length r)) (set_env e1 s))
                    fuel) as [e He]; try assumption;
        cbn [fw_atags_size set_fw_atags_size]; try lia.
      rewrite He. exists e. cbn [fw_atags_size set_fw_atags_size]. f_equal.
      unfold set_fw_atags_size, set_env. cbn. f_equal. lia.
Qed.

(** ** The second pass of copy_atags *)

Lemma set_ram_id (s : state) : set_ram (ram s) s = s.
Proof. destruct s. reflexivity. Qed.

Lemma copy_body_skip (a : Z) (s : state) (copy : Z) (r : list byte) :
  hdr_tag (ram s) a = rec_tag r -> skip_atag (rec_tag r) = true ->
  copy_atags_copy_body a (s, copy) = Ok (Next, (s, copy)).
Proof.
  intros Htag Hskip. unfold copy_atags_copy_body. rewrite Htag, Hskip. reflexivity.
Qed.

Lemma copy_body_kept (a : Z) (s : state) (copy : Z) (r : list byte) :
  read_bytes (ram s) a (length r) = r -> wf_record r = true ->
  Z.of_nat (length r) < 2 ^ 32 -> skip_atag (rec_tag r) = false ->
  copy_atags_copy_body a (s, copy) =
  Ok (Next, (set_ram (memcpy (ram s) copy a (Z.of_nat (length r))) s,
             copy + Z.of_nat (length r))).
Proof.
  intros Hr Hwf Hlt Hskip.
  destruct (wf_record_spec _ Hwf) as (Ht & Hs & Hlen & _).
  assert (Htag : hdr_tag (ram s) a = rec_tag r) by (apply load32_get32; assumption).
  assert (Hsize : hdr_size (ram s) a = rec_size r) by (apply load32_get32; assumption).
  unfold copy_atags_copy_body. rewrite Htag, Hskip, Hsize.
  replace (rec_size r * 4) with (Z.of_nat (length r)) by lia.
  rewrite wrap32_small by lia. cbn [ram set_ram].
  do 3 f_equal. unfold tag_next. f_equal.
  transitivity (4 * rec_size r); [|lia]. f_equal.
  apply load32_get32; [|assumption].
  rewrite memcpy_read_bytes. exact Hr.
Qed.

Lemma copy_pass_spec (l : list (list byte)) :
  forall (a : Z) (s : state) (copy : Z) (fuel : nat),
    forallb wf_record l = true -> tags_at (ram s) a l ->
    total_bytes l < 2 ^ 32 ->
    (copy + total_bytes (kept l) <= a \/ src_end a l <= copy) ->
    (length l < fuel)%nat ->
    exists m',
      copy_atags_copy_pass fuel a s copy = Ok (set_ram m' s, copy + total_bytes (kept l)) /\
      read_bytes m' copy (length (concat (kept l))) = concat (kept l) /\
      (forall x, ~ (copy <= x < copy + total_bytes (kept l)) -> m' x = ram s x).
Proof.
  unfold copy_atags_copy_pass.
  induction l as [|r l IH]; intros a s copy fuel Hwf Hl Hfit Hdisj Hfuel;
    (destruct fuel as [|fuel]; [simpl in Hfuel; lia|]).
  - rewrite for_each_tag_nil by assumption. exists (ram s).
    rewrite set_ram_id. unfold total_bytes. simpl. rewrite Z.add_0_r. auto.
  - simpl in Hwf, Hfuel. apply andb_true_iff in Hwf as [Hr Hwf].
    rewrite (for_each_tag_cons (fun sc : state * Z => ram (fst sc)) _ _ _ _ r l)
      by assumption.
    destruct (tags_at_head _ _ _ _ Hl Hr) as (Htag & Hsize & Hnext & _).
    simpl in Htag, Hsize, Hnext.
    destruct Hl as [Hbytes Hl]. simpl in Hbytes, Hl.
    rewrite total_bytes_cons in Hfit. pose proof (total_bytes_nonneg l).
    pose proof (total_bytes_nonneg (kept l)) as Hk0.
    assert (Hend : src_end a (r :: l) = src_end (a + Z.of_nat (length r)) l).
    { unfold src_end. rewrite total_bytes_cons. lia. }
    rewrite kept_cons in *.
    destruct (skip_atag (rec_tag r)) eqn:Hskip.
    + rewrite (copy_body_skip a s copy r) by assumption. simpl fst.
      rewrite Hnext. apply IH; try assumption; try lia.
    + rewrite total_bytes_cons in *.
      rewrite (copy_body_kept a s copy r) by (assumption || lia).
      cbn [fst ram set_ram].
      set (m1 := memcpy (ram s) copy a (Z.of_nat (length r))).
      assert (Hsrc : forall x, a <= x < src_end a (r :: l) -> m1 x = ram s x).
      { intros x Hx. apply memcpy_outside. lia. }
      assert (Hnext1 : tag_next m1 a = a + Z.of_nat (length r)).
      { rewrite <- Hnext. unfold tag_next, hdr_size. do 2 f_equal.
        apply load32_ext. intros x Hx. apply Hsrc.
        destruct (wf_record_spec _ Hr) as (_ & Hs & _).
        unfold src_end. rewrite total_bytes_cons. lia. }
      rewrite Hnext1.
      destruct (IH (a + Z.of_nat (length r)) (set_ram m1 s)
                   (copy + Z.of_nat (length r)) fuel) as (m2 & Hrun & Hbuf & Hframe);
        try assumption; try lia.
      { cbn [ram set_ram]. apply (tags_at_ext (ram s)); [|assumption].
        intros x Hx. apply Hsrc. lia. }
      exists m2. cbn [ram set_ram] in *. split; [|split].
      * rewrite Hrun. do 2 f_equal. lia.
      * simpl concat. rewrite List.length_app, read_bytes_app. f_equal.
        -- rewrite <- Hbytes at 2. rewrite <- (memcpy_read_bytes (ram s) copy a).
           apply read_bytes_ext. intros x Hx. apply Hframe. lia.
        -- exact Hbuf.
      * intros x Hx. rewrite Hframe by lia. apply memcpy_outside. lia.
Qed.

(** ** copy_atags as a whole *)

Lemma source_list_bounds (m : mem) (a : Z) (l : list (list byte)) :
  source_list m a l ->
  0 <= total_bytes (kept l) /\ total_bytes (kept l) <= total_bytes l /\
  total_bytes l < 2 ^ 32.
Proof.
  intros (_ & _ & Ha & Hend). unfold src_end in Hend.
  pose proof (total_bytes_nonneg (kept l)). pose proof (total_bytes_kept_le l). lia.
Qed.

Lemma copy_atags_spec (malloc : Z -> Z) (s : state) (a : Z) (l : list (list byte))
    (fuel : nat) :
  source_list (ram s) a l -> fw_atags_size s = 0 ->
  (malloc (total_bytes (kept l)) <> 0 ->
   block_ok (malloc (total_bytes (kept l))) (total_bytes (kept l)) a l) ->
  (length l < fuel)%nat ->
  exists e,
    let s1 := set_fw_atags_size (total_bytes (kept l)) (set_env e s) in
    copy_atags_size_pass fuel a s = Ok s1 /\
    (total_bytes (kept l) = 0 \/ malloc (total_bytes (kept l)) = 0 ->
     copy_atags malloc fuel a s = Ok s1) /\
    (total_bytes (kept l) <> 0 -> malloc (total_bytes (kept l)) <> 0 ->
     exists m',
       copy_atags_copy_pass fuel a (set_fw_atags_copy (malloc (total_bytes (kept l))) s1)
         (malloc (total_bytes (kept l))) =
       Ok (set_ram m' (set_fw_atags_copy (malloc (total_bytes (kept l))) s1),
           malloc (total_bytes (kept l)) + total_bytes (kept l)) /\
       copy_atags malloc fuel a s =
       Ok (set_ram m' (set_fw_atags_copy (malloc (total_bytes (kept l))) s1)) /\
       read_bytes m' (malloc (total_bytes (kept l))) (length (concat (kept l)))
       = concat (kept l) /\
       (forall x, ~ (malloc (total_bytes (kept l)) <= x
                     < malloc (total_bytes (kept l)) + total_bytes (kept l)) ->
                  m' x = ram s x)).
Proof.
  intros Hsrc Hsz Hblock Hfuel.
  destruct (source_list_bounds _ _ _ Hsrc) as (Hk0 & Hkl & Hfit).
  destruct Hsrc as (Hwf & Hl & Ha & Hend).
  destruct (size_pass_spec l a s fuel) as [e He]; try assumption; try lia.
  rewrite Hsz, Z.add_0_l in He. exists e. cbn zeta.
  set (n := total_bytes (kept l)) in *.
  set (s1 := set_fw_atags_size n (set_env e s)) in *.
  assert (Hne : (a =? 0) = false) by (apply Z.eqb_neq; lia).
  split; [exact He|]. split.
  - intros Hcase. unfold copy_atags. rewrite Hne, He.
    change (fw_atags_size s1) with n.
    destruct (n =? 0) eqn:Hn0; [reflexivity|].
    apply Z.eqb_neq in Hn0. destruct Hcase as [Hcase | Hcase]; [contradiction|].
    rewrite Hcase. reflexivity.
  - intros Hn Hp. specialize (Hblock Hp). destruct Hblock as (Hp0 & Hphi & Hdisj).
    destruct (copy_pass_spec l a (set_fw_atags_copy (malloc n) s1) (malloc n) fuel)
      as (m' & Hrun & Hbuf & Hframe); try assumption.
    exists m'. split; [exact Hrun|]. split; [|split; assumption].
    unfold copy_atags. rewrite Hne, He. change (fw_atags_size s1) with n.
    apply Z.eqb_neq in Hn. rewrite Hn. apply Z.eqb_neq in Hp. rewrite Hp.
    rewrite Hrun. reflexivity.
Qed.

Lemma skip_atag_regenerate (tag : Z) :
  skip_atag tag = bool_decide (tag ∈ regenerate_set).
Proof.
  unfold skip_atag, regenerate_set. symmetry.
  destruct (Z.eqb_spec tag ATAG_NONE) as [-> | H0];
    [apply bool_decide_eq_true; rewrite !elem_of_cons; auto|].
  destruct (Z.eqb_spec tag ATAG_CORE) as [-> | H1];
    [apply bool_decide_eq_true; rewrite !elem_of_cons; auto|].
  destruct (Z.eqb_spec tag ATAG_INITRD) as [-> | H2];
    [apply bool_decide_eq_true; rewrite !elem_of_cons; auto|].
  destruct (Z.eqb_spec tag ATAG_INITRD2) as [-> | H3];
    [apply bool_decide_eq_true; rewrite !elem_of_cons; auto|].
  apply bool_decide_eq_false. rewrite !elem_of_cons, elem_of_nil. tauto.
Qed.

Lemma kept_pass_through (l : list (list byte)) : kept l = pass_through l.
Proof.
  unfold kept, pass_through. apply List.filter_ext. intros r.
  rewrite skip_atag_regenerate. reflexivity.
Qed.

Lemma kept_idempotent (l : list (list byte)) : kept (kept l) = kept l.
Proof.
  induction l as [|r l IH]; [reflexivity|].
  rewrite kept_cons. destruct (skip_atag (rec_tag r)) eqn:Hskip; [exact IH|].
  rewrite kept_cons, Hskip, IH. reflexivity.
Qed.

Lemma kept_wf (l : list (list byte)) :
  forallb wf_record l = true -> forallb wf_record (kept l) = true.
Proof.
  induction l as [|r l IH]; [reflexivity|]. rewrite kept_cons. simpl. intros Hwf.
  apply andb_true_iff in Hwf as [Hr Hwf].
  destruct (skip_atag (rec_tag r)); [auto|]. simpl. rewrite Hr. auto.
Qed.

Lemma kept_sizes (l : list (list byte)) :
  forallb wf_record l = true ->
  sumZ (List.map (fun r => rec_size r * 4) (kept l)) = total_bytes (kept l).
Proof.
  induction l as [|r l IH]; [reflexivity|]. rewrite kept_cons. simpl. intros Hwf.
  apply andb_true_iff in Hwf as [Hr Hwf].
  destruct (skip_atag (rec_tag r)); [auto|]. simpl.
  rewrite total_bytes_cons, IH by assumption.
  destruct (wf_record_spec _ Hr) as (_ & _ & Hlen & _). lia.
Qed.

Lemma fw_atags_get_core (s : state) (l : list (list byte)) :
  forallb wf_record l = true -> tags_at (ram s) (fw_atags s) l ->
  first_is_core l = true -> fw_atags_get s = fw_atags s.
Proof.
  intros Hwf Hl Hcore. destruct l as [|r l]; [discriminate|].
  simpl in Hwf, Hcore. apply andb_true_iff in Hwf as [Hr _].
  destruct (tags_at_head _ _ _ _ Hl Hr) as (Htag & _).
  unfold fw_atags_get. rewrite Htag, Hcore. reflexivity.
Qed.

Lemma check_keys_frame (vol_up vol_down fdt : Z) (s : state) :
  exists e, check_keys vol_up vol_down fdt s = set_env e s.
Proof.
  unfold check_keys, env_set.
  destruct (fdt =? 0); [exists (env s); symmetry; apply set_env_id|].
  destruct (vol_up =? 1), (vol_down =? 1); eexists;
    try reflexivity; symmetry; apply set_env_id.
Qed.

Lemma kept_nonempty_bytes (l : list (list byte)) :
  forallb wf_record l = true -> kept l <> [] -> total_bytes (kept l) <> 0.
Proof.
  intros Hwf Hne. apply kept_wf in Hwf. destruct (kept l) as [|r k]; [congruence|].
  simpl in Hwf. apply andb_true_iff in Hwf as [Hr _].
  destruct (wf_record_spec _ Hr) as (Ht & _). rewrite total_bytes_cons.
  pose proof (total_bytes_nonneg k). lia.
Qed.

(** ** The claims about copy_atags *)

(** C1. For a well-formed source list (first tag CORE, records before a NONE
    terminator, inside the address space) that the copy does not overwrite,
    the sizing pass leaves in [fw_atags_size] the sum of [hdr.size * 4] over
    the records that are not skipped, and the copy pass started on a block of
    that size ends with its cursor exactly that many bytes further: it has
    filled every one of these bytes, with the records that are not skipped
    one after the other, whatever the block held before, and has written
    nothing outside the block. *)
Theorem copy_pass_writes_size_pass_total (s : state) (l : list (list byte))
    (buf : Z) (fuel : nat) :
  source_list (ram s) (fw_atags s) l -> first_is_core l = true ->
  fw_atags_size s = 0 ->
  block_ok buf (total_bytes (kept l)) (fw_atags s) l ->
  (length l < fuel)%nat ->
  exists s1 s2 copy_end,
    copy_atags_size_pass fuel (fw_atags_get s) s = Ok s1 /\
    ram s1 = ram s /\
    fw_atags_size s1 = sumZ (List.map (fun r => rec_size r * 4) (kept l)) /\
    copy_atags_copy_pass fuel (fw_atags_get s) (set_fw_atags_copy buf s1) buf
    = Ok (s2, copy_end) /\
    copy_end - buf = fw_atags_size s1 /\
    read_bytes (ram s2) buf (Z.to_nat (fw_atags_size s1)) = concat (kept l) /\
    Z.of_nat (length (concat (kept l))) = fw_atags_size s1 /\
    (forall x, ~ (buf <= x < buf + fw_atags_size s1) -> ram s2 x = ram s x).
Proof.
  intros Hsrc Hcore Hsz (Hb0 & Hbhi & Hdisj) Hfuel.
  destruct (source_list_bounds _ _ _ Hsrc) as (Hk0 & Hkl & Hfit).
  destruct Hsrc as (Hwf & Hl & Ha & Hend).
  rewrite (fw_atags_get_core s l) by assumption.
  destruct (size_pass_spec l (fw_atags s) s fuel) as [e He]; try assumption; try lia.
  rewrite Hsz, Z.add_0_l in He.
  set (s1 := set_fw_atags_size (total_bytes (kept l)) (set_env e s)) in *.
  destruct (copy_pass_spec l (fw_atags s) (set_fw_atags_copy buf s1) buf fuel)
    as (m' & Hrun & Hbuf & Hframe); try assumption.
  exists s1, (set_ram m' (set_fw_atags_copy buf s1)), (buf + total_bytes (kept l)).
  split; [exact He|]. split; [reflexivity|]. split.
  { rewrite kept_sizes by assumption. reflexivity. }
  split; [exact Hrun|]. split; [cbn; lia|].
  split; [cbn [ram set_ram fw_atags_size set_fw_atags_size s1];
          rewrite to_nat_total_bytes; exact Hbuf|].
  split; [reflexivity|exact Hframe].
Qed.

(** C2. For a well-formed source list, the buffer [copy_atags] produces holds
    exactly the records whose tag is outside {NONE, CORE, INITRD, INITRD2},
    byte for byte and in source order, and [fw_atags_size] is its length;
    when no record is kept, no buffer is made. *)
Theorem copy_atags_keeps_pass_through (malloc : Z -> Z) (s : state)
    (l : list (list byte)) (fuel : nat) :
  source_list (ram s) (fw_atags s) l -> first_is_core l = true ->
  fw_atags_size s = 0 ->
  (malloc (total_bytes (pass_through l)) <> 0 ->
   block_ok (malloc (total_bytes (pass_through l))) (total_bytes (pass_through l))
     (fw_atags s) l) ->
  (length l < fuel)%nat ->
  exists s',
    copy_atags malloc fuel (fw_atags_get s) s = Ok s' /\
    fw_atags_size s' = total_bytes (pass_through l) /\
    (pass_through l <> [] -> malloc (total_bytes (pass_through l)) <> 0 ->
     fw_atags_copy s' = malloc (total_bytes (pass_through l)) /\
     read_bytes (ram s') (fw_atags_copy s') (Z.to_nat (fw_atags_size s'))
     = concat (pass_through l)) /\
    (pass_through l = [] -> fw_atags_copy s' = fw_atags_copy s /\ ram s' = ram s).
Proof.
  rewrite <- kept_pass_through. intros Hsrc Hcore Hsz Hblock Hfuel.
  pose proof Hsrc as (Hwf & Hl & _).
  rewrite (fw_atags_get_core s l) by assumption.
  destruct (copy_atags_spec malloc s (fw_atags s) l fuel) as (e & _ & Hnone & Hsome);
    try assumption.
  cbn zeta in Hnone, Hsome.
  destruct (Z.eq_dec (total_bytes (kept l)) 0) as [Hn | Hn].
  - eexists. split; [apply Hnone; auto|]. split; [reflexivity|]. split.
    + intros Hne. apply kept_nonempty_bytes in Hne; [contradiction|assumption].
    + intros _. split; reflexivity.
  - destruct (Z.eq_dec (malloc (total_bytes (kept l))) 0) as [Hp | Hp].
    + eexists. split; [apply Hnone; auto|]. split; [reflexivity|]. split.
      * intros _ Hp'. contradiction.
      * intros Hnil. rewrite Hnil in Hn. contradiction.
    + destruct (Hsome Hn Hp) as (m' & _ & Hrun & Hbuf & _).
      eexists. split; [exact Hrun|]. split; [reflexivity|]. split.
      * intros _ _. split; [reflexivity|]. cbn.
        rewrite to_nat_total_bytes. exact Hbuf.
      * intros Hnil. rewrite Hnil in Hn. contradiction.
Qed.

Lemma tags_at_of_bytes (m : mem) (l : list (list byte)) :
  forall a,
    read_bytes m a (length (concat l)) = concat l ->
    hdr_tag m (a + Z.of_nat (length (concat l))) = ATAG_NONE ->
    tags_at m a l.
Proof.
  induction l as [|r l IH]; intros a Hbytes Hnone.
  - simpl in *. rewrite Z.add_0_r in Hnone. exact Hnone.
  - simpl concat in *. rewrite List.length_app in *.
    rewrite read_bytes_app in Hbytes.
    apply app_inj_1 in Hbytes as [Hr Hrest]; [|apply read_bytes_length].
    split; [exact Hr|]. apply IH; [exact Hrest|].
    rewrite <- Hnone. f_equal. lia.
Qed.

Lemma kept_length_le (l : list (list byte)) : (length (kept l) <= length l)%nat.
Proof.
  induction l as [|r l IH]; [simpl; lia|]. rewrite kept_cons.
  destruct (skip_atag (rec_tag r)); simpl; lia.
Qed.

(** C9. Filtering is idempotent. Take the buffer a run of [copy_atags] has
    produced, lay its bytes out as a source list (closed by a NONE header)
    and run [copy_atags] on it: the new buffer holds the bytes that were fed
    in, all of them and nothing else, and [fw_atags_size] is their number.
    The list that is fed back is the engine's own output, and it is not
    empty. *)
Theorem copy_atags_idempotent (malloc1 malloc2 : Z -> Z) (s s' t : state)
    (l : list (list byte)) (a : Z) (fuel1 fuel2 : nat) :
  source_list (ram s) (fw_atags s) l -> first_is_core l = true ->
  fw_atags_size s = 0 ->
  pass_through l <> [] ->
  malloc1 (total_bytes (pass_through l)) <> 0 ->
  block_ok (malloc1 (total_bytes (pass_through l))) (total_bytes (pass_through l))
    (fw_atags s) l ->
  (length l < fuel1)%nat ->
  copy_atags malloc1 fuel1 (fw_atags_get s) s = Ok s' ->
  let fed := read_bytes (ram s') (fw_atags_copy s') (Z.to_nat (fw_atags_size s')) in
  let n := Z.of_nat (length fed) in
  read_bytes (ram t) a (length fed) = fed ->
  hdr_tag (ram t) (a + n) = ATAG_NONE ->
  0 < a -> a + n + Z.of_nat hdr_tag_off + 4 <= 2 ^ 32 ->
  fw_atags_size t = 0 ->
  0 < malloc2 n -> malloc2 n + n <= 2 ^ 32 ->
  (malloc2 n + n <= a \/ a + n + Z.of_nat hdr_tag_off + 4 <= malloc2 n) ->
  (length l < fuel2)%nat ->
  fed <> [] /\
  exists t',
    copy_atags malloc2 fuel2 a t = Ok t' /\
    fw_atags_copy t' = malloc2 n /\
    fw_atags_size t' = n /\
    read_bytes (ram t') (fw_atags_copy t') (Z.to_nat (fw_atags_size t')) = fed.
Proof.
  rewrite <- !kept_pass_through.
  intros Hsrc Hcore Hsz Hne Hp1 Hb1 Hfuel1 Hrun1 fed n.
  pose proof Hsrc as (Hwf & Hl & _).
  pose proof (kept_nonempty_bytes l Hwf Hne) as Hn.
  rewrite (fw_atags_get_core s l) in Hrun1 by assumption.
  destruct (copy_atags_spec malloc1 s (fw_atags s) l fuel1) as (e1 & _ & _ & Hsome1);
    try assumption; [intros _; exact Hb1|].
  destruct (Hsome1 Hn Hp1) as (m1 & _ & Hrun1' & Hbuf1 & _).
  rewrite Hrun1' in Hrun1. injection Hrun1 as <-.
  assert (Hfed : fed = concat (kept l)).
  { subst fed.
    cbn [ram fw_atags_copy fw_atags_size set_ram set_fw_atags_copy set_fw_atags_size
         set_env].
    rewrite to_nat_total_bytes. exact Hbuf1. }
  assert (Hlen : n = total_bytes (kept l)) by (subst n; rewrite Hfed; reflexivity).
  clearbody fed n. subst fed n.
  intros Hbytes Hnone Ha Hend Hsz2 Hp2 Hphi Hdisj Hfuel2.
  split.
  { intros Hnil. apply Hn. unfold total_bytes. rewrite Hnil. reflexivity. }
  assert (Hsrc2 : source_list (ram t) a (kept l)).
  { split; [apply kept_wf; exact Hwf|]. split; [|split; [exact Ha|exact Hend]].
    apply tags_at_of_bytes; assumption. }
  pose proof (kept_length_le l) as Hkl.
  destruct (copy_atags_spec malloc2 t a (kept l) fuel2) as (e2 & _ & _ & Hsome2);
    try assumption; try lia.
  { rewrite kept_idempotent. intros _. split; [exact Hp2|]. split; assumption. }
  rewrite kept_idempotent in Hsome2.
  destruct (Hsome2 Hn) as (m2 & _ & Hrun2 & Hbuf2 & _); [lia|].
  eexists. split; [exact Hrun2|].
  cbn [ram fw_atags_copy fw_atags_size set_ram set_fw_atags_copy set_fw_atags_size
       set_env].
  split; [reflexivity|]. split; [reflexivity|].
  rewrite to_nat_total_bytes. exact Hbuf2.
Qed.

Lemma setup_board_tags_null (s : state) (p : Z) :
  fw_atags_copy s = 0 -> setup_board_tags s p = (s, p).
Proof. intros Hnull. unfold setup_board_tags. rewrite Hnull. reflexivity. Qed.

(** C7. When [malloc] fails for the block [copy_atags] asks for, [copy_atags]
    returns without a filtered list: [fw_atags_copy] is still null and memory
    is untouched; [setup_board_tags] then changes nothing; and [misc_init_r]
    returns 0. *)
Theorem copy_atags_malloc_failure (malloc : Z -> Z) (vol_up vol_down : Z)
    (s : state) (l : list (list byte)) (fuel : nat) :
  source_list (ram s) (fw_atags s) l -> first_is_core l = true ->
  fw_atags_size s = 0 -> fw_atags_copy s = 0 ->
  malloc (total_bytes (kept l)) = 0 ->
  (length l < fuel)%nat ->
  exists s1 s2,
    copy_atags malloc fuel (fw_atags_get s) s = Ok s1 /\
    fw_atags_copy s1 = 0 /\ ram s1 = ram s /\
    misc_init_r malloc vol_up vol_down fuel s = Ok (s2, 0) /\
    fw_atags_copy s2 = 0 /\ ram s2 = ram s /\
    (forall p, setup_board_tags s2 p = (s2, p)).
Proof.
  intros Hsrc Hcore Hsz Hnull Hfail Hfuel.
  pose proof Hsrc as (Hwf & Hl & _).
  destruct (copy_atags_spec malloc s (fw_atags s) l fuel) as (e & _ & Hnone & _);
    try assumption; [intros Hp; contradiction|].
  cbn zeta in Hnone. specialize (Hnone (or_intror Hfail)).
  unfold misc_init_r. rewrite (fw_atags_get_core s l) by assumption.
  rewrite Hnone. cbn [gd_fdt_blob set_fw_atags_size set_env].
  match goal with
  | |- context [check_keys ?u ?d ?f ?x] =>
      destruct (check_keys_frame u d f x) as [e2 He2]
  end.
  rewrite He2. do 2 eexists. split; [reflexivity|].
  split; [exact Hnull|]. split; [reflexivity|]. split; [reflexivity|].
  split; [exact Hnull|]. split; [reflexivity|].
  intros p. apply setup_board_tags_null. exact Hnull.
Qed.

(** C8. [setup_board_tags]: with a filtered list in place, the
    [fw_atags_size] bytes of the buffer appear at the cursor, the cursor
    moves on by [fw_atags_size], and nothing else changes; without one (as
    in the state a boot starts from, before [copy_atags] has run) state and
    cursor come back as they were. *)
Theorem setup_board_tags_spec (s : state) (in_params : Z) :
  (fw_atags_copy s <> 0 ->
   exists m',
     setup_board_tags s in_params = (set_ram m' s, in_params + fw_atags_size s) /\
     read_bytes m' in_params (Z.to_nat (fw_atags_size s))
     = read_bytes (ram s) (fw_atags_copy s) (Z.to_nat (fw_atags_size s)) /\
     (forall x, ~ (in_params <= x < in_params + fw_atags_size s) -> m' x = ram s x)) /\
  (fw_atags_copy s = 0 -> setup_board_tags s in_params = (s, in_params)) /\
  (forall m r1 r2 banks,
     setup_board_tags (boot_state m r1 r2 banks) in_params
     = (boot_state m r1 r2 banks, in_params)).
Proof.
  split; [|split; [apply setup_board_tags_null|reflexivity]].
  - intros Hcopy. unfold setup_board_tags.
    apply Z.eqb_neq in Hcopy. rewrite Hcopy.
    eexists. split; [reflexivity|]. split.
    + apply List.map_ext_in. intros i Hi. apply List.in_seq in Hi.
      rewrite memcpy_inside by lia. f_equal. lia.
    + intros x Hx. apply memcpy_outside. exact Hx.
Qed.

(** C5. When the first record is not tagged CORE, [fw_atags_get] gives
    [NULL]; [dram_init] and [dram_init_banksize] return [-EINVAL] and
    [copy_atags] returns at once, each with the state as it was: the RAM
    total and the bank table keep their initial (zero) contents and no
    filtered list exists; [misc_init_r] goes on to the keys and returns 0. *)
Theorem invalid_list_reports_no_data (malloc : Z -> Z) (s : state) (fuel : nat) :
  hdr_tag (ram s) (fw_atags s) <> ATAG_CORE ->
  fw_atags_get s = 0 /\
  dram_init fuel s = Ok (s, - EINVAL) /\
  dram_init_banksize fuel s = Ok (s, - EINVAL) /\
  copy_atags malloc fuel (fw_atags_get s) s = Ok s /\
  (forall vol_up vol_down,
     misc_init_r malloc vol_up vol_down fuel s
     = Ok (check_keys vol_up vol_down (gd_fdt_blob s) s, 0)).
Proof.
  intros Hcore. apply Z.eqb_neq in Hcore.
  assert (Hget : fw_atags_get s = 0).
  { unfold fw_atags_get. rewrite Hcore. reflexivity. }
  unfold misc_init_r, dram_init, dram_init_banksize, copy_atags. rewrite Hget. auto.
Qed.

(** ** The serial number *)

Lemma hex_digit_val_digit (d : Z) : 0 <= d < 16 -> hex_digit_val (hex_digit d) = d.
Proof.
  intros Hd.
  assert (Hc : d = 0 \/ d = 1 \/ d = 2 \/ d = 3 \/ d = 4 \/ d = 5 \/ d = 6 \/ d = 7 \/
               d = 8 \/ d = 9 \/ d = 10 \/ d = 11 \/ d = 12 \/ d = 13 \/ d = 14 \/ d = 15)
    by lia.
  repeat (destruct Hc as [-> | Hc]; [reflexivity|]). subst d. reflexivity.
Qed.

Lemma hex_value_app (ds : list ascii) (c : ascii) :
  hex_value (ds ++ [c]) = 16 * hex_value ds + hex_digit_val c.
Proof. unfold hex_value. rewrite List.fold_left_app. reflexivity. Qed.

Lemma hex_digits_value (n : nat) :
  forall v, 0 <= v < 16 ^ Z.of_nat n -> hex_value (hex_digits n v) = v.
Proof.
  induction n as [|n IH]; intros v Hv.
  - change (16 ^ Z.of_nat 0) with 1 in Hv.
    assert (v = 0) as -> by lia. reflexivity.
  - simpl hex_digits. destruct (v <? 16) eqn:Hlt.
    + apply Z.ltb_lt in Hlt. unfold hex_value. simpl.
      rewrite hex_digit_val_digit by lia. reflexivity.
    + apply Z.ltb_ge in Hlt. rewrite hex_value_app, IH.
      * rewrite hex_digit_val_digit by (apply Z.mod_pos_bound; lia).
        pose proof (Z.div_mod v 16). lia.
      * rewrite Nat2Z.inj_succ, Z.pow_succ_r in Hv by lia.
        split; [apply Z.div_pos; lia|apply Z.div_lt_upper_bound; lia].
Qed.

Lemma hex_digits_length (n : nat) :
  forall v, (length (hex_digits n v) <= n)%nat.
Proof.
  induction n as [|n IH]; intros v; simpl; [lia|].
  destruct (v <? 16); simpl; [lia|].
  rewrite List.length_app. simpl. specialize (IH (v / 16)). lia.
Qed.

Lemma fmt_08x_length (v : Z) : length (fmt_08x v) = 8%nat.
Proof.
  unfold fmt_08x. rewrite List.length_app, List.repeat_length.
  pose proof (hex_digits_length 8 (wrap32 v)). lia.
Qed.

Lemma hex_value_zeros (k : nat) (ds : list ascii) :
  hex_value (repeat "0"%char k ++ ds) = hex_value ds.
Proof.
  unfold hex_value. rewrite List.fold_left_app. f_equal.
  induction k as [|k IH]; [reflexivity|]. simpl. exact IH.
Qed.

(** The eight digits denote the 32-bit value: the bound on the number of
    digits cuts nothing. *)
Lemma fmt_08x_value (v : Z) : hex_value (fmt_08x v) = wrap32 v.
Proof.
  unfold fmt_08x. rewrite hex_value_zeros. apply hex_digits_value.
  unfold wrap32. change (16 ^ Z.of_nat 8) with (2 ^ 32).
  apply Z.mod_pos_bound. lia.
Qed.

Lemma string_of_list_ascii_length (l : list ascii) :
  String.length (string_of_list_ascii l) = length l.
Proof. induction l as [|c l IH]; simpl; [reflexivity|]. rewrite IH. reflexivity. Qed.

Lemma sprintf_08x_08x_length (a b : Z) : String.length (sprintf_08x_08x a b) = 16%nat.
Proof.
  unfold sprintf_08x_08x.
  rewrite string_of_list_ascii_length, List.length_app, !fmt_08x_length. reflexivity.
Qed.

(** C6. For a SERIALNR record with low = 0x1 and high = 0x2: when the store
    has no [serial#], [parse_serial] sets it to the 16 digits
    0000000200000001 (high half first) and touches no other key; when the
    store has one, [parse_serial] changes nothing. *)
Theorem parse_serial_spec (s : state) (serialnr : Z) :
  serialnr_low (ram s) serialnr = 1 -> serialnr_high (ram s) serialnr = 2 ->
  (env_get s "serial#" = None ->
   env (parse_serial serialnr s) !! "serial#"%string = Some "0000000200000001"%string /\
   (forall k : string, k <> "serial#"%string ->
                       env (parse_serial serialnr s) !! k = env s !! k)) /\
  (forall v, env_get s "serial#" = Some v -> parse_serial serialnr s = s).
Proof.
  intros Hlow Hhigh. unfold parse_serial. split.
  - intros Hnone. rewrite Hnone, Hlow, Hhigh. unfold env_set. cbn [env set_env].
    split.
    + rewrite lookup_insert_eq. reflexivity.
    + intros k Hk. apply lookup_insert_ne. congruence.
  - intros v Hsome. rewrite Hsome. reflexivity.
Qed.

(** C10. Whatever the two 32-bit fields [high] and [low] hold, the string
    that [%08x%08x] formats from them has exactly 16 characters, so with its
    terminating NUL it fills the 17 bytes of [serial] and no more; the string
    [parse_serial] stores is formatted this way from the fields of its
    record. *)
Theorem parse_serial_fits_buffer (high low : Z) (s : state) (serialnr : Z) :
  String.length (sprintf_08x_08x high low) = 16%nat /\
  (String.length (sprintf_08x_08x high low) + 1 <= 17)%nat /\
  match env_get s "serial#" with
  | None =>
      parse_serial serialnr s
      = env_set "serial#" (sprintf_08x_08x (serialnr_high (ram s) serialnr)
                                           (serialnr_low (ram s) serialnr)) s
  | Some _ => parse_serial serialnr s = s
  end.
Proof.
  rewrite sprintf_08x_08x_length.
  split; [reflexivity|]. split; [lia|].
  unfold parse_serial. destruct (env_get s "serial#"); reflexivity.
Qed.

(** ** Termination of the walk *)



Lemma first_stop (m : mem) (k : nat) :
  forall t, for_each_tag_cond m (nth_tag m t k) = false ->
  exists j, (j <= k)%nat /\ for_each_tag_cond m (nth_tag m t j) = false /\
            (forall i, (i < j)%nat -> for_each_tag_cond m (nth_tag m t i) = true).
Proof.
  induction k as [|k IH]; intros t Hstop.
  - exists 0%nat. split; [lia|]. split; [exact Hstop|]. intros i Hi. lia.
  - destruct (for_each_tag_cond m t) eqn:Hc.
    + destruct (IH (tag_next m t) Hstop) as (j & Hj & Hstopj & Hbefore).
      exists (S j). split; [lia|]. split; [exact Hstopj|].
      intros [|i] Hi; [exact Hc|]. apply Hbefore. lia.
    + exists 0%nat. split; [lia|]. split; [exact Hc|]. intros i Hi. lia.
Qed.







(** ** RAM extraction *)

Lemma mem_sizes_cons (r : list byte) (l : list (list byte)) :
  mem_sizes (r :: l) =
  if rec_tag r =? ATAG_MEM then rec_mem_size r :: mem_sizes l else mem_sizes l.
Proof. unfold mem_sizes, mem_records. simpl. destruct (rec_tag r =? ATAG_MEM); reflexivity. Qed.

Lemma mem_banks_cons (r : list byte) (l : list (list byte)) :
  mem_banks (r :: l) =
  if rec_tag r =? ATAG_MEM then (rec_mem_start r, rec_mem_size r) :: mem_banks l
  else mem_banks l.
Proof. unfold mem_banks, mem_records. simpl. destruct (rec_tag r =? ATAG_MEM); reflexivity. Qed.

Lemma mem_fields (m : mem) (a : Z) (r : list byte) :
  read_bytes m a (length r) = r -> wf_mem_record r = true ->
  (rec_tag r =? ATAG_MEM) = true ->
  u_mem_size m a = rec_mem_size r /\ u_mem_start m a = rec_mem_start r.
Proof.
  intros Hr Hwf Hmem. unfold wf_mem_record in Hwf. rewrite Hmem in Hwf. simpl in Hwf.
  apply andb_true_iff in Hwf as [H1 H2].
  apply Nat.leb_le in H1. apply Nat.leb_le in H2.
  unfold u_mem_size, u_mem_start, rec_mem_size, rec_mem_start.
  rewrite <- !Z.add_assoc, <- !Nat2Z.inj_add.
  split; apply load32_get32; assumption.
Qed.

Lemma wrap_phys_small (x : Z) : 0 <= x < 2 ^ phys_size_bits -> wrap_phys x = x.
Proof. intros Hx. unfold wrap_phys. apply Z.mod_small. exact Hx. Qed.

Lemma wrap_phys_range (x : Z) :
  0 < 2 ^ phys_size_bits -> 0 <= wrap_phys x < 2 ^ phys_size_bits.
Proof. intros Hpos. unfold wrap_phys. apply Z.mod_pos_bound. exact Hpos. Qed.

Lemma wrap_phys_add_l (x y : Z) : wrap_phys (wrap_phys x + y) = wrap_phys (x + y).
Proof. unfold wrap_phys. apply Zplus_mod_idemp_l. Qed.

Lemma dram_init_loop (l : list (list byte)) :
  forall (a : Z) (s : state) (fuel : nat),
    forallb wf_record l = true -> forallb wf_mem_record l = true ->
    tags_at (ram s) a l -> 0 <= gd_ram_size s < 2 ^ phys_size_bits ->
    (length l < fuel)%nat ->
    for_each_tag ram dram_init_body fuel a s =
    Ok (set_gd_ram_size (wrap_phys (gd_ram_size s + sumZ (mem_sizes l))) s).
Proof.
  induction l as [|r l IH]; intros a s fuel Hwf Hwm Hl Hg Hfuel;
    (destruct fuel as [|fuel]; [simpl in Hfuel; lia|]).
  - rewrite for_each_tag_nil by assumption. simpl sumZ.
    rewrite Z.add_0_r, wrap_phys_small by assumption. destruct s. reflexivity.
  - simpl in Hwf, Hwm, Hfuel.
    apply andb_true_iff in Hwf as [Hr Hwf]. apply andb_true_iff in Hwm as [Hrm Hwm].
    rewrite (for_each_tag_cons _ _ _ _ _ r l) by assumption.
    destruct (tags_at_head _ _ _ _ Hl Hr) as (Htag & _ & Hnext & _).
    destruct Hl as [Hbytes Hl]. rewrite mem_sizes_cons.
    unfold dram_init_body at 1. rewrite Htag.
    destruct (rec_tag r =? ATAG_MEM) eqn:Hmem; cbn [negb].
    + destruct (mem_fields _ _ _ Hbytes Hrm Hmem) as [Hsz _]. rewrite Hsz.
      cbn [ram set_gd_ram_size]. rewrite Hnext.
      rewrite IH; try assumption; try lia.
      * cbn [gd_ram_size set_gd_ram_size]. simpl sumZ.
        rewrite wrap_phys_add_l, Z.add_assoc. reflexivity.
      * cbn [gd_ram_size set_gd_ram_size]. apply wrap_phys_range. lia.
    + rewrite Hnext. apply IH; try assumption. lia.
Qed.

Lemma dram_init_banksize_loop (l : list (list byte)) :
  forall (a : Z) (s : state) (b : nat) (fuel : nat),
    forallb wf_record l = true -> forallb wf_mem_record l = true ->
    tags_at (ram s) a l ->
    Z.of_nat (length (gd_bd_bi_dram s)) = CONFIG_NR_DRAM_BANKS ->
    (b < length (gd_bd_bi_dram s))%nat ->
    (length l < fuel)%nat ->
    exists b',
      for_each_tag (fun sb : state * Z => ram (fst sb)) dram_init_banksize_body
        fuel a (s, Z.of_nat b) =
      Ok (set_gd_bd_bi_dram
            (take b (gd_bd_bi_dram s)
             ++ take (length (gd_bd_bi_dram s) - b) (mem_banks l)
             ++ drop (b + length (take (length (gd_bd_bi_dram s) - b) (mem_banks l)))
                  (gd_bd_bi_dram s)) s, b').
Proof.
  induction l as [|r l IH]; intros a s b fuel Hwf Hwm Hl Hnr Hb Hfuel;
    (destruct fuel as [|fuel]; [simpl in Hfuel; lia|]).
  - rewrite for_each_tag_nil by assumption. exists (Z.of_nat b).
    unfold mem_banks. simpl. rewrite take_nil. simpl. rewrite Nat.add_0_r, take_drop.
    destruct s. reflexivity.
  - simpl in Hwf, Hwm, Hfuel.
    apply andb_true_iff in Hwf as [Hr Hwf]. apply andb_true_iff in Hwm as [Hrm Hwm].
    rewrite (for_each_tag_cons (fun sb : state * Z => ram (fst sb)) _ _ _ _ r l)
      by assumption.
    destruct (tags_at_head _ _ _ _ Hl Hr) as (Htag & _ & Hnext & _).
    simpl in Htag, Hnext.
    destruct Hl as [Hbytes Hl]. simpl in Hbytes, Hl. rewrite mem_banks_cons.
    unfold dram_init_banksize_body at 1. rewrite Htag.
    destruct (rec_tag r =? ATAG_MEM) eqn:Hmem; cbn [negb].
    + destruct (mem_fields _ _ _ Hbytes Hrm Hmem) as [Hsz Hst]. rewrite Hsz, Hst.
      set (T := gd_bd_bi_dram s) in *. set (e := (rec_mem_start r, rec_mem_size r)).
      replace ((0 <=? Z.of_nat b) && (Z.of_nat b <? Z.of_nat (length T))) with true
        by (symmetry; apply andb_true_iff; split; [apply Z.leb_le|apply Z.ltb_lt]; lia).
      rewrite Nat2Z.id.
      destruct (Z.of_nat b + 1 =? CONFIG_NR_DRAM_BANKS) eqn:Hlast.
      * apply Z.eqb_eq in Hlast. exists (Z.of_nat b + 1).
        replace (length T - b)%nat with 1%nat by lia.
        simpl take. simpl length.
        rewrite (insert_take_drop T b e) by lia.
        replace (b + 1)%nat with (S b) by lia. reflexivity.
      * apply Z.eqb_neq in Hlast. cbn [fst ram set_gd_bd_bi_dram]. rewrite Hnext.
        replace (Z.of_nat b + 1) with (Z.of_nat (S b)) by lia.
        destruct (IH (a + Z.of_nat (length r)) (set_gd_bd_bi_dram (<[b := e]> T) s)
                     (S b) fuel) as [b' Hrun]; try assumption;
          cbn [ram gd_bd_bi_dram set_gd_bd_bi_dram]; rewrite ?length_insert;
          try lia.
        exists b'. rewrite Hrun. cbn [gd_bd_bi_dram set_gd_bd_bi_dram].
        rewrite length_insert.
        replace (length T - b)%nat with (S (length T - S b)) by lia.
        simpl take. simpl length.
        rewrite (take_S_r (<[b := e]> T) b e)
          by (apply list_lookup_insert_eq; lia).
        rewrite take_insert_ge by lia. rewrite drop_insert_lt by lia.
        rewrite <- app_assoc. simpl.
        replace (b + S (length (take (length T - S b) (mem_banks l))))%nat
          with (S b + length (take (length T - S b) (mem_banks l)))%nat by lia.
        reflexivity.
    + simpl fst. rewrite Hnext. apply IH; assumption || lia.
Qed.

Lemma get32_nonneg (r : list byte) (off : nat) : 0 <= get32 r off.
Proof.
  unfold get32.
  pose proof (byte_val_range (nth off r x00)).
  pose proof (byte_val_range (nth (off + 1) r x00)).
  pose proof (byte_val_range (nth (off + 2) r x00)).
  pose proof (byte_val_range (nth (off + 3) r x00)).
  lia.
Qed.

Lemma mem_sizes_nonneg (l : list (list byte)) : 0 <= sumZ (mem_sizes l).
Proof.
  induction l as [|r l IH]; [simpl; lia|]. rewrite mem_sizes_cons.
  destruct (rec_tag r =? ATAG_MEM); [|exact IH]. simpl.
  pose proof (get32_nonneg r (u_off + mem_size_off)). unfold rec_mem_size. lia.
Qed.

Lemma take_min_length {A : Type} (n : nat) (l : list A) :
  take (Nat.min (length l) n) l = take n l.
Proof.
  destruct (Nat.le_ge_cases n (length l)) as [Hle | Hge].
  - rewrite Nat.min_r by assumption. reflexivity.
  - rewrite Nat.min_l by assumption. rewrite !take_ge by lia. reflexivity.
Qed.

(** C3 (amended). For a source list whose MEM records carry the sizes
    s1..sn, [dram_init] adds to [gd->ram_size] their sum reduced modulo 2^W,
    W the width of [phys_size_t] (32 on this board): the exact sum whenever
    the total stays below 2^W, whatever the capacity of the bank table; and
    [dram_init_banksize] writes the first min(n, CONFIG_NR_DRAM_BANKS)
    (start, size) pairs, in source order, into the first entries of a table
    of CONFIG_NR_DRAM_BANKS >= 1 entries and leaves the other entries as
    they were. *)
Theorem dram_extraction (s : state) (l : list (list byte)) (fuel : nat) :
  source_list (ram s) (fw_atags s) l -> first_is_core l = true ->
  forallb wf_mem_record l = true ->
  0 <= gd_ram_size s < 2 ^ phys_size_bits ->
  0 < CONFIG_NR_DRAM_BANKS ->
  Z.of_nat (length (gd_bd_bi_dram s)) = CONFIG_NR_DRAM_BANKS ->
  (length l < fuel)%nat ->
  let total := gd_ram_size s + sumZ (mem_sizes l) in
  let k := Nat.min (length (mem_banks l)) (Z.to_nat CONFIG_NR_DRAM_BANKS) in
  dram_init fuel s = Ok (set_gd_ram_size (total mod 2 ^ phys_size_bits) s, 0) /\
  (total < 2 ^ phys_size_bits -> dram_init fuel s = Ok (set_gd_ram_size total s, 0)) /\
  dram_init_banksize fuel s =
  Ok (set_gd_bd_bi_dram (take k (mem_banks l) ++ drop k (gd_bd_bi_dram s)) s, 0).
Proof.
  intros Hsrc Hcore Hwm Hg Hnr Hlen Hfuel total k.
  destruct Hsrc as (Hwf & Hl & Ha & _).
  assert (Hget : fw_atags_get s = fw_atags s) by (apply (fw_atags_get_core s l); assumption).
  assert (Hne : (fw_atags s =? 0) = false) by (apply Z.eqb_neq; lia).
  pose proof (mem_sizes_nonneg l) as Hsum.
  assert (Hinit : dram_init fuel s = Ok (set_gd_ram_size (wrap_phys total) s, 0)).
  { unfold dram_init. rewrite Hget, Hne, (dram_init_loop l) by assumption. reflexivity. }
  split; [exact Hinit|]. split.
  - intros Hfit. rewrite Hinit, wrap_phys_small by (subst total; lia). reflexivity.
  - unfold dram_init_banksize. rewrite Hget, Hne.
    destruct (dram_init_banksize_loop l (fw_atags s) s 0%nat fuel) as [b' Hrun];
      try assumption; try lia.
    change 0 with (Z.of_nat 0) at 1. rewrite Hrun. do 3 f_equal.
    rewrite take_0, Nat.sub_0_r. simpl.
    assert (Hk : length (gd_bd_bi_dram s) = Z.to_nat CONFIG_NR_DRAM_BANKS) by lia.
    rewrite Hk. subst k. rewrite take_min_length. f_equal.
    rewrite length_take. f_equal. lia.
Qed.

(** * Further properties of stemmy.c *)

(** ** What the loops keep, on any memory *)

Lemma for_each_tag_invariant {St : Type} (P : St -> Prop) (ram_of : St -> mem)
    (body : Z -> St -> result (ctl * St)) :
  (forall t s c s', P s -> body t s = Ok (c, s') -> P s') ->
  forall (fuel : nat) (t : Z) (s s' : St),
    P s -> for_each_tag ram_of body fuel t s = Ok s' -> P s'.
Proof.
  intros Hbody. induction fuel as [|fuel IH]; intros t s s' HP Hrun; simpl in Hrun.
  - discriminate.
  - destruct (for_each_tag_cond (ram_of s) t).
    + destruct (body t s) as [[c s1] | |] eqn:Hb; try discriminate.
      pose proof (Hbody t s c s1 HP Hb) as HP1. destruct c.
      * apply (IH _ _ _ HP1 Hrun).
      * injection Hrun as <-. exact HP1.
    + injection Hrun as <-. exact HP.
Qed.

Lemma for_each_tag_defined {St : Type} (P : St -> Prop) (ram_of : St -> mem)
    (body : Z -> St -> result (ctl * St)) :
  (forall t s, P s -> exists c s', body t s = Ok (c, s') /\ (c = Next -> P s')) ->
  forall (fuel : nat) (t : Z) (s : St),
    P s -> for_each_tag ram_of body fuel t s <> Undefined.
Proof.
  intros Hbody. induction fuel as [|fuel IH]; intros t s HP; simpl.
  - discriminate.
  - destruct (for_each_tag_cond (ram_of s) t); [|discriminate].
    destruct (Hbody t s HP) as (c & s1 & -> & HP1). destruct c.
    + apply IH. apply HP1. reflexivity.
    + discriminate.
Qed.

Lemma parse_serial_env (p : Z) (s : state) :
  (forall k : string, k <> "serial#"%string -> env (parse_serial p s) !! k = env s !! k) /\
  (forall v, env s !! "serial#"%string = Some v -> parse_serial p s = s) /\
  is_Some (env (parse_serial p s) !! "serial#"%string).
Proof.
  unfold parse_serial, env_get. destruct (env s !! "serial#"%string) as [v|] eqn:Hs.
  - split; [reflexivity|]. split; [reflexivity|]. rewrite Hs. eauto.
  - unfold env_set. cbn [env set_env]. split; [|split].
    + intros k Hk. apply lookup_insert_ne. congruence.
    + intros v Hv. discriminate.
    + rewrite lookup_insert_eq. eauto.
Qed.

Lemma wrap32_mod4 (x : Z) : wrap32 x mod 4 = x mod 4.
Proof.
  unfold wrap32. rewrite (Z.mod_eq x (2 ^ 32)) by lia.
  replace (x - 2 ^ 32 * (x / 2 ^ 32)) with (x + (- 2 ^ 30 * (x / 2 ^ 32)) * 4) by lia.
  apply Z.mod_add. lia.
Qed.

Lemma size_body_mod4 (t : Z) (s : state) (c : ctl) (s' : state) :
  copy_atags_size_body t s = Ok (c, s') ->
  fw_atags_size s' mod 4 = fw_atags_size s mod 4.
Proof.
  unfold copy_atags_size_body. destruct (skip_atag (hdr_tag (ram s) t)).
  - intros [= _ <-]. reflexivity.
  - intros [= _ <-]. cbn [fw_atags_size set_fw_atags_size].
    rewrite wrap32_mod4.
    assert (Hsz : forall s1, (exists e, s1 = set_env e s) ->
                   (fw_atags_size s1 + wrap32 (hdr_size (ram s1) t * 4)) mod 4
                   = fw_atags_size s mod 4).
    { intros s1 [e ->]. cbn [fw_atags_size set_env ram].
      rewrite Z.add_mod, wrap32_mod4, Z.mod_mul, Z.add_0_r, Z.mod_mod by lia.
      reflexivity. }
    apply Hsz. destruct (hdr_tag (ram s) t =? ATAG_SERIAL).
    + apply parse_serial_frame.
    + exists (env s). symmetry. apply set_env_id.
Qed.

Lemma size_pass_keeps_refl (s : state) : size_pass_keeps s s.
Proof. unfold size_pass_keeps. repeat split; auto. Qed.

Lemma size_pass_keeps_trans (s0 s1 s2 : state) :
  size_pass_keeps s0 s1 -> size_pass_keeps s1 s2 -> size_pass_keeps s0 s2.
Proof.
  unfold size_pass_keeps.
  intros (A1 & A2 & A3 & A4 & A5 & A6 & A7 & A8 & A9 & A10 & A11 & A12)
         (B1 & B2 & B3 & B4 & B5 & B6 & B7 & B8 & B9 & B10 & B11 & B12).
  repeat split; try congruence.
  - intros k Hk. rewrite B10, A10 by assumption. reflexivity.
  - intros v Hv. pose proof (A11 v Hv) as He. rewrite <- He in Hv.
    rewrite (B11 v Hv). exact He.
Qed.

Lemma size_body_keeps (t : Z) (s : state) (c : ctl) (s' : state) :
  copy_atags_size_body t s = Ok (c, s') -> size_pass_keeps s s'.
Proof.
  intros Hb. pose proof (size_body_mod4 _ _ _ _ Hb) as Hmod. revert Hb.
  unfold copy_atags_size_body. destruct (skip_atag (hdr_tag (ram s) t)).
  - intros [= _ <-]. apply size_pass_keeps_refl.
  - intros [= _ Hs']. destruct (hdr_tag (ram s) t =? ATAG_SERIAL).
    + destruct (parse_serial_env (t + Z.of_nat u_off) s) as (Hk & Hv & _).
      destruct (parse_serial_frame (t + Z.of_nat u_off) s) as [e He].
      rewrite He in Hs', Hk, Hv. subst s'. unfold size_pass_keeps.
      cbn [ram env fw_mach fw_atags fw_atags_copy gd_ram_size gd_bd_bi_dram
           gd_bd_bi_arch_number gd_bd_bi_boot_params gd_fdt_blob
           set_fw_atags_size set_env] in *.
      repeat split; try assumption.
      intros v Hsome. specialize (Hv v Hsome). apply (f_equal env) in Hv. exact Hv.
    + subst s'. unfold size_pass_keeps. repeat split; assumption.
Qed.

Lemma size_pass_keeps_run (fuel : nat) (tags : Z) (s s' : state) :
  copy_atags_size_pass fuel tags s = Ok s' -> size_pass_keeps s s'.
Proof.
  apply (for_each_tag_invariant (size_pass_keeps s) ram copy_atags_size_body).
  - intros t s1 c s2 H1 Hb. apply (size_pass_keeps_trans s s1 s2 H1).
    apply (size_body_keeps _ _ _ _ Hb).
  - apply size_pass_keeps_refl.
Qed.

Lemma size_pass_range (fuel : nat) (tags : Z) (s s' : state) :
  0 <= fw_atags_size s < 2 ^ 32 ->
  copy_atags_size_pass fuel tags s = Ok s' -> 0 <= fw_atags_size s' < 2 ^ 32.
Proof.
  intros Hr.
  apply (for_each_tag_invariant (fun x => 0 <= fw_atags_size x < 2 ^ 32)
           ram copy_atags_size_body); [|exact Hr].
  intros t s1 c s2 H1. unfold copy_atags_size_body.
  destruct (skip_atag (hdr_tag (ram s1) t)).
  - intros [= _ <-]. exact H1.
  - intros [= _ <-]. cbn [fw_atags_size set_fw_atags_size].
    unfold wrap32 at 1. apply Z.mod_pos_bound. lia.
Qed.

Lemma copy_pass_keeps_run (fuel : nat) (tags : Z) (s : state) (copy : Z)
    (s' : state) (copy' : Z) :
  copy_atags_copy_pass fuel tags s copy = Ok (s', copy') ->
  exists m', s' = set_ram m' s.
Proof.
  intros Hrun.
  assert (Hinv : forall t (sc : state * Z) c (sc' : state * Z),
             (exists m', fst sc = set_ram m' s) ->
             copy_atags_copy_body t sc = Ok (c, sc') ->
             exists m', fst sc' = set_ram m' s).
  { intros t [s1 c1] c [s2 c2] [m1 H1]. simpl in H1. subst s1.
    unfold copy_atags_copy_body.
    destruct (skip_atag (hdr_tag (ram (set_ram m1 s)) t)).
    - intros [= _ <- _]. exists m1. reflexivity.
    - intros [= _ <- _]. eexists. reflexivity. }
  apply (for_each_tag_invariant _ (fun sc : state * Z => ram (fst sc)) _ Hinv
           fuel tags (s, copy) (s', copy')).
  - exists (ram s). simpl. symmetry. apply set_ram_id.
  - exact Hrun.
Qed.

(** Everything [copy_atags] may change, on any memory. *)
Lemma copy_atags_keeps (malloc : Z -> Z) (fuel : nat) (tags : Z) (s s' : state) :
  copy_atags malloc fuel tags s = Ok s' ->
  exists s1,
    size_pass_keeps s s1 /\
    (0 <= fw_atags_size s < 2 ^ 32 -> 0 <= fw_atags_size s1 < 2 ^ 32) /\
    (s' = s1 \/
     exists m', fw_atags_size s1 <> 0 /\ malloc (fw_atags_size s1) <> 0 /\
                s' = set_ram m' (set_fw_atags_copy (malloc (fw_atags_size s1)) s1)).
Proof.
  unfold copy_atags. destruct (tags =? 0).
  - intros [= <-]. exists s. split; [apply size_pass_keeps_refl|]. auto.
  - destruct (copy_atags_size_pass fuel tags s) as [s1| |] eqn:Hsize; try discriminate.
    intros Hrun. exists s1. split; [apply (size_pass_keeps_run _ _ _ _ Hsize)|].
    split; [intros Hr; apply (size_pass_range _ _ _ _ Hr Hsize)|].
    destruct (fw_atags_size s1 =? 0) eqn:Hz; [injection Hrun as <-; auto|].
    destruct (malloc (fw_atags_size s1) =? 0) eqn:Hp; [injection Hrun as <-; auto|].
    destruct (copy_atags_copy_pass fuel tags _ _) as [[s3 c3]| |] eqn:Hcopy;
      try discriminate.
    injection Hrun as <-. right.
    destruct (copy_pass_keeps_run _ _ _ _ _ _ Hcopy) as [m' ->].
    exists m'. apply Z.eqb_neq in Hz. apply Z.eqb_neq in Hp. auto.
Qed.

(** X1. Whatever the memory holds, [copy_atags] leaves the saved boot
    parameters, the RAM total, the bank table, the board data and the device
    tree pointer alone; of the environment it can only set [serial#], and
    only when it has no value; and either memory and [fw_atags_copy] are
    untouched, or [fw_atags_copy] is the non-null block [malloc] gave for
    [fw_atags_size] bytes. *)
Theorem copy_atags_frame (malloc : Z -> Z) (fuel : nat) (tags : Z) (s s' : state) :
  copy_atags malloc fuel tags s = Ok s' ->
  fw_mach s' = fw_mach s /\ fw_atags s' = fw_atags s /\
  gd_ram_size s' = gd_ram_size s /\ gd_bd_bi_dram s' = gd_bd_bi_dram s /\
  gd_bd_bi_arch_number s' = gd_bd_bi_arch_number s /\
  gd_bd_bi_boot_params s' = gd_bd_bi_boot_params s /\
  gd_fdt_blob s' = gd_fdt_blob s /\
  (forall k : string, k <> "serial#"%string -> env s' !! k = env s !! k) /\
  (forall v, env s !! "serial#"%string = Some v -> env s' = env s) /\
  ((ram s' = ram s /\ fw_atags_copy s' = fw_atags_copy s) \/
   (fw_atags_size s' <> 0 /\ fw_atags_copy s' <> 0 /\
    fw_atags_copy s' = malloc (fw_atags_size s'))).
Proof.
  intros Hrun. destruct (copy_atags_keeps _ _ _ _ _ Hrun) as (s1 & Hk & _ & Hcase).
  destruct Hk as (A1 & A2 & A3 & A4 & A5 & A6 & A7 & A8 & A9 & A10 & A11 & A12).
  destruct Hcase as [-> | (m' & Hz & Hp & ->)];
    cbn [ram env fw_mach fw_atags fw_atags_copy fw_atags_size gd_ram_size gd_bd_bi_dram
         gd_bd_bi_arch_number gd_bd_bi_boot_params gd_fdt_blob
         set_ram set_fw_atags_copy];
    repeat (split; [assumption|]); auto.
Qed.

(** X2. [copy_atags] keeps [fw_atags_size] a 32-bit multiple of 4, on any
    memory; so [setup_board_tags] afterwards moves the cursor by a multiple
    of 4 and a word-aligned cursor stays word-aligned. *)
Theorem copy_atags_keeps_alignment (malloc : Z -> Z) (fuel : nat) (tags : Z)
    (s s' : state) (in_params : Z) :
  fw_atags_size s mod 4 = 0 -> 0 <= fw_atags_size s < 2 ^ 32 ->
  copy_atags malloc fuel tags s = Ok s' ->
  fw_atags_size s' mod 4 = 0 /\ 0 <= fw_atags_size s' < 2 ^ 32 /\
  snd (setup_board_tags s' in_params) mod 4 = in_params mod 4.
Proof.
  intros Hal Hr Hrun.
  destruct (copy_atags_keeps _ _ _ _ _ Hrun) as (s1 & Hk & Hr1 & Hcase).
  assert (Hal1 : fw_atags_size s1 mod 4 = 0).
  { destruct Hk as (_ & _ & _ & _ & _ & _ & _ & _ & _ & _ & _ & Hm). congruence. }
  specialize (Hr1 Hr).
  assert (Hsz : fw_atags_size s' = fw_atags_size s1).
  { destruct Hcase as [-> | (m' & _ & _ & ->)]; reflexivity. }
  rewrite Hsz. split; [exact Hal1|]. split; [exact Hr1|].
  unfold setup_board_tags. destruct (fw_atags_copy s' =? 0); simpl; [reflexivity|].
  rewrite Hsz, Z.add_mod, Hal1, Z.add_0_r, Z.mod_mod by lia. reflexivity.
Qed.

(** ** The serial number, once *)

(** X3. [parse_serial] writes at most once: after one call, a second call,
    on whatever record, changes nothing. *)
Theorem parse_serial_first_wins (p q : Z) (s : state) :
  parse_serial q (parse_serial p s) = parse_serial p s.
Proof.
  destruct (parse_serial_env p s) as (_ & _ & [v Hv]).
  destruct (parse_serial_env q (parse_serial p s)) as (_ & Hkeep & _).
  apply (Hkeep v Hv).
Qed.

Lemma serial_fields (m : mem) (a : Z) (r : list byte) :
  read_bytes m a (length r) = r -> wf_serial_record r = true -> is_serial r = true ->
  serialnr_high m (a + Z.of_nat u_off) = rec_serial_high r /\
  serialnr_low m (a + Z.of_nat u_off) = rec_serial_low r.
Proof.
  intros Hr Hwf Hser. unfold wf_serial_record in Hwf. unfold is_serial in Hser.
  rewrite Hser in Hwf. simpl in Hwf.
  apply andb_true_iff in Hwf as [H1 H2].
  apply Nat.leb_le in H1. apply Nat.leb_le in H2.
  unfold serialnr_high, serialnr_low, rec_serial_high, rec_serial_low.
  rewrite <- !Z.add_assoc, <- !Nat2Z.inj_add.
  split; apply load32_get32; assumption.
Qed.

Lemma parse_serial_seen (a : Z) (s : state) (r : list byte) :
  read_bytes (ram s) a (length r) = r -> wf_serial_record r = true ->
  is_serial r = true ->
  parse_serial (a + Z.of_nat u_off) s = set_env (serial_seen r (env s)) s.
Proof.
  intros Hr Hwf Hser. destruct (serial_fields _ _ _ Hr Hwf Hser) as [Hhi Hlo].
  unfold parse_serial, env_get, serial_seen.
  destruct (env s !! "serial#"%string).
  - symmetry. apply set_env_id.
  - rewrite Hhi, Hlo. reflexivity.
Qed.

Lemma size_pass_env (l : list (list byte)) :
  forall (a : Z) (s : state) (fuel : nat),
    forallb wf_record l = true -> forallb wf_serial_record l = true ->
    tags_at (ram s) a l ->
    0 <= fw_atags_size s -> fw_atags_size s + total_bytes (kept l) < 2 ^ 32 ->
    (length l < fuel)%nat ->
    copy_atags_size_pass fuel a s =
    Ok (set_fw_atags_size (fw_atags_size s + total_bytes (kept l))
          (set_env (serial_pass l (env s)) s)).
Proof.
  unfold copy_atags_size_pass.
  induction l as [|r l IH]; intros a s fuel Hwf Hws Hl Hlo Hhi Hfuel;
    (destruct fuel as [|fuel]; [simpl in Hfuel; lia|]).
  - rewrite for_each_tag_nil by assumption.
    destruct s. unfold total_bytes. simpl. rewrite Z.add_0_r. reflexivity.
  - simpl in Hwf, Hws, Hfuel.
    apply andb_true_iff in Hwf as [Hr Hwf]. apply andb_true_iff in Hws as [Hrs Hws].
    rewrite (for_each_tag_cons _ _ _ _ _ r l) by assumption.
    destruct (tags_at_head _ _ _ _ Hl Hr) as (Htag & Hsize & Hnext & _).
    destruct (wf_record_spec _ Hr) as (_ & _ & Hlen & _).
    destruct Hl as [Hbytes Hl]. rewrite kept_cons in *. simpl serial_pass.
    destruct (skip_atag (rec_tag r)) eqn:Hskip; cbn [negb andb].
    + rewrite (size_body_skip a s r) by assumption.
      rewrite Hnext. apply IH; try assumption. lia.
    + rewrite total_bytes_cons in *. pose proof (total_bytes_nonneg (kept l)).
      assert (Hbody : copy_atags_size_body a s =
                      Ok (Next, set_fw_atags_size (fw_atags_size s + Z.of_nat (length r))
                                  (set_env (if is_serial r then serial_seen r (env s)
                                            else env s) s))).
      { unfold copy_atags_size_body. rewrite Htag, Hskip.
        change (rec_tag r =? ATAG_SERIAL) with (is_serial r).
        destruct (is_serial r) eqn:Hser.
        - rewrite (parse_serial_seen a s r) by assumption.
          cbn [ram set_env fw_atags_size]. rewrite Hsize.
          replace (rec_size r * 4) with (Z.of_nat (length r)) by lia.
          rewrite (wrap32_small (Z.of_nat (length r))) by lia.
          rewrite wrap32_small by lia. reflexivity.
        - rewrite Hsize.
          replace (rec_size r * 4) with (Z.of_nat (length r)) by lia.
          rewrite (wrap32_small (Z.of_nat (length r))) by lia.
          rewrite wrap32_small by lia. rewrite set_env_id. reflexivity. }
      rewrite Hbody. cbn [ram set_env set_fw_atags_size]. rewrite Hnext.
      rewrite IH; try assumption; cbn [ram env fw_atags_size set_fw_atags_size set_env];
        try lia.
      f_equal. unfold set_fw_atags_size, set_env. cbn. f_equal. lia.
Qed.

Lemma serial_pass_set (l : list (list byte)) :
  forall (e : gmap string string) (v : string),
    e !! "serial#"%string = Some v -> serial_pass l e = e.
Proof.
  induction l as [|r l IH]; intros e v Hv; simpl; [reflexivity|].
  assert (Hseen : serial_seen r e = e) by (unfold serial_seen; rewrite Hv; reflexivity).
  destruct (negb (skip_atag (rec_tag r)) && is_serial r);
    rewrite ?Hseen; apply (IH e v Hv).
Qed.

Lemma serial_pass_find (l : list (list byte)) :
  forall e : gmap string string,
    skip_atag ATAG_SERIAL = false -> e !! "serial#"%string = None ->
    serial_pass l e =
    match List.find is_serial l with
    | Some r => <["serial#"%string := serial_string r]> e
    | None => e
    end.
Proof.
  induction l as [|r l IH]; intros e Hkeep He; simpl; [reflexivity|].
  destruct (is_serial r) eqn:Hser.
  - assert (Hskip : skip_atag (rec_tag r) = false).
    { unfold is_serial in Hser. apply Z.eqb_eq in Hser. rewrite Hser. exact Hkeep. }
    rewrite Hskip. cbn [negb andb]. unfold serial_seen. rewrite He.
    apply (serial_pass_set l _ (serial_string r)). apply lookup_insert_eq.
  - rewrite andb_false_r. apply IH; assumption.
Qed.

Lemma copy_atags_env (malloc : Z -> Z) (fuel : nat) (tags : Z) (s s' : state) :
  tags <> 0 -> copy_atags malloc fuel tags s = Ok s' ->
  exists s1, copy_atags_size_pass fuel tags s = Ok s1 /\ env s' = env s1.
Proof.
  intros Hne. apply Z.eqb_neq in Hne. unfold copy_atags. rewrite Hne.
  destruct (copy_atags_size_pass fuel tags s) as [s1| |]; try discriminate.
  intros Hrun. exists s1. split; [reflexivity|].
  destruct (fw_atags_size s1 =? 0); [injection Hrun as <-; reflexivity|].
  destruct (malloc (fw_atags_size s1) =? 0); [injection Hrun as <-; reflexivity|].
  destruct (copy_atags_copy_pass fuel tags _ _) as [[s3 c3]| |] eqn:Hcopy;
    try discriminate.
  injection Hrun as <-.
  destruct (copy_pass_keeps_run _ _ _ _ _ _ Hcopy) as [m' ->]. reflexivity.
Qed.

(** X4. On a well-formed list, [copy_atags] leaves in [serial#] the number
    of the first SERIAL record: when [serial#] has no value and the list has
    a SERIAL record, the new environment is the old one with [serial#] set
    to the 16 digits of that first record (a later SERIAL record is not
    looked at); otherwise the environment is unchanged. SERIAL is a tag
    [skip_atag] lets through. *)
Theorem copy_atags_serial_from_first_record (malloc : Z -> Z) (s : state)
    (l : list (list byte)) (fuel : nat) :
  source_list (ram s) (fw_atags s) l ->
  forallb wf_serial_record l = true ->
  skip_atag ATAG_SERIAL = false ->
  fw_atags_size s = 0 ->
  (malloc (total_bytes (kept l)) <> 0 ->
   block_ok (malloc (total_bytes (kept l))) (total_bytes (kept l)) (fw_atags s) l) ->
  (length l < fuel)%nat ->
  exists s',
    copy_atags malloc fuel (fw_atags s) s = Ok s' /\
    env s' =
    match env s !! "serial#"%string, List.find is_serial l with
    | None, Some r => <["serial#"%string := serial_string r]> (env s)
    | _, _ => env s
    end.
Proof.
  intros Hsrc Hws Hkeep Hsz Hblock Hfuel.
  destruct (source_list_bounds _ _ _ Hsrc) as (Hk0 & Hkl & Hfit).
  pose proof Hsrc as (Hwf & Hl & Ha & _).
  destruct (copy_atags_spec malloc s (fw_atags s) l fuel) as (e & _ & Hnone & Hsome);
    try assumption.
  cbn zeta in Hnone, Hsome.
  assert (Hrun : exists s', copy_atags malloc fuel (fw_atags s) s = Ok s').
  { destruct (Z.eq_dec (total_bytes (kept l)) 0) as [Hn | Hn]; [eauto|].
    destruct (Z.eq_dec (malloc (total_bytes (kept l))) 0) as [Hp | Hp]; [eauto|].
    destruct (Hsome Hn Hp) as (m' & _ & Hr & _). eauto. }
  destruct Hrun as [s' Hrun]. exists s'. split; [exact Hrun|].
  destruct (copy_atags_env malloc fuel (fw_atags s) s s') as (s1 & Hsize & ->);
    [lia|exact Hrun|].
  rewrite (size_pass_env l) in Hsize by (assumption || lia).
  injection Hsize as <-. cbn [env set_fw_atags_size set_env].
  destruct (env s !! "serial#"%string) as [v|] eqn:He.
  - apply (serial_pass_set l _ v He).
  - rewrite (serial_pass_find l) by assumption.
    destruct (List.find is_serial l); reflexivity.
Qed.

(** ** copy_atags and what follows it *)

(** A run of [copy_atags] that starts from any value of [fw_atags_size]. *)
Lemma copy_atags_run (malloc : Z -> Z) (s : state) (a : Z) (l : list (list byte))
    (fuel : nat) :
  source_list (ram s) a l ->
  0 <= fw_atags_size s ->
  fw_atags_size s + total_bytes (kept l) < 2 ^ 32 ->
  fw_atags_size s + total_bytes (kept l) <> 0 ->
  malloc (fw_atags_size s + total_bytes (kept l)) <> 0 ->
  block_ok (malloc (fw_atags_size s + total_bytes (kept l)))
    (fw_atags_size s + total_bytes (kept l)) a l ->
  (length l < fuel)%nat ->
  exists e m',
    copy_atags malloc fuel a s =
    Ok (set_ram m'
          (set_fw_atags_copy (malloc (fw_atags_size s + total_bytes (kept l)))
             (set_fw_atags_size (fw_atags_size s + total_bytes (kept l))
                (set_env e s)))) /\
    read_bytes m' (malloc (fw_atags_size s + total_bytes (kept l)))
      (length (concat (kept l))) = concat (kept l) /\
    (forall x, ~ (malloc (fw_atags_size s + total_bytes (kept l)) <= x
                  < malloc (fw_atags_size s + total_bytes (kept l))
                    + total_bytes (kept l)) -> m' x = ram s x) /\
    source_list m' a l.
Proof.
  intros Hsrc Hlo Hhi Hn Hp (Hp0 & Hphi & Hdisj) Hfuel.
  destruct (source_list_bounds _ _ _ Hsrc) as (Hk0 & Hkl & Hfit).
  destruct Hsrc as (Hwf & Hl & Ha & Hend).
  set (N := fw_atags_size s + total_bytes (kept l)) in *.
  destruct (size_pass_spec l a s fuel) as [e He]; try assumption.
  fold N in He.
  set (s1 := set_fw_atags_size N (set_env e s)) in *.
  destruct (copy_pass_spec l a (set_fw_atags_copy (malloc N) s1) (malloc N) fuel)
    as (m' & Hrun & Hbuf & Hframe); try assumption; [lia|].
  exists e, m'. cbn [ram set_fw_atags_copy set_fw_atags_size set_env] in Hframe.
  split; [|split; [exact Hbuf|split; [exact Hframe|]]].
  - unfold copy_atags.
    replace (a =? 0) with false by (symmetry; apply Z.eqb_neq; lia).
    rewrite He. change (fw_atags_size s1) with N.
    apply Z.eqb_neq in Hn. rewrite Hn. apply Z.eqb_neq in Hp. rewrite Hp.
    rewrite Hrun. reflexivity.
  - split; [exact Hwf|]. split; [|split; assumption].
    apply (tags_at_ext (ram s)); [|exact Hl].
    intros x Hx. apply Hframe. lia.
Qed.

(** X5. [copy_atags] does not disturb the list it reads: when the block from
    [malloc] lies away from the source list, the same records are still laid
    out at [fw_atags] afterwards, [fw_atags_get] still accepts the list, and
    the buffer holds the kept records. *)
Theorem copy_atags_keeps_source_list (malloc : Z -> Z) (s : state)
    (l : list (list byte)) (fuel : nat) :
  source_list (ram s) (fw_atags s) l -> first_is_core l = true ->
  fw_atags_size s = 0 -> kept l <> [] ->
  malloc (total_bytes (kept l)) <> 0 ->
  block_ok (malloc (total_bytes (kept l))) (total_bytes (kept l)) (fw_atags s) l ->
  (length l < fuel)%nat ->
  exists s',
    copy_atags malloc fuel (fw_atags_get s) s = Ok s' /\
    source_list (ram s') (fw_atags s') l /\
    fw_atags_get s' = fw_atags s /\
    read_bytes (ram s') (fw_atags_copy s') (Z.to_nat (fw_atags_size s')) = concat (kept l).
Proof.
  intros Hsrc Hcore Hsz Hne Hp Hblock Hfuel.
  pose proof Hsrc as (Hwf & Hl & _).
  destruct (source_list_bounds _ _ _ Hsrc) as (Hk0 & Hkl & Hfit).
  pose proof (kept_nonempty_bytes l Hwf Hne) as Hn.
  rewrite (fw_atags_get_core s l) by assumption.
  destruct (copy_atags_run malloc s (fw_atags s) l fuel) as (e & m' & Hrun & Hbuf & _ & Hsrc');
    rewrite ?Hsz, ?Z.add_0_l; try assumption; try lia.
  rewrite Hsz, Z.add_0_l in Hrun, Hbuf.
  eexists. split; [exact Hrun|].
  cbn [ram fw_atags fw_atags_copy fw_atags_size set_ram set_fw_atags_copy
       set_fw_atags_size set_env].
  split; [exact Hsrc'|]. split.
  - destruct Hsrc' as (_ & Hl' & _).
    apply (fw_atags_get_core
             (set_ram m' (set_fw_atags_copy (malloc (total_bytes (kept l)))
                            (set_fw_atags_size (total_bytes (kept l)) (set_env e s)))) l);
      assumption.
  - rewrite to_nat_total_bytes. exact Hbuf.
Qed.

(** X6. The hand-off end to end: after [misc_init_r] on a well-formed list,
    [setup_board_tags] puts exactly the pass-through records, in source
    order, at the cursor and moves the cursor past them. *)
Theorem handoff_emits_pass_through (malloc : Z -> Z) (vol_up vol_down : Z)
    (s : state) (l : list (list byte)) (fuel : nat) (in_params : Z) :
  source_list (ram s) (fw_atags s) l -> first_is_core l = true ->
  fw_atags_size s = 0 -> pass_through l <> [] ->
  malloc (total_bytes (pass_through l)) <> 0 ->
  block_ok (malloc (total_bytes (pass_through l))) (total_bytes (pass_through l))
    (fw_atags s) l ->
  (length l < fuel)%nat ->
  exists s1 s2,
    misc_init_r malloc vol_up vol_down fuel s = Ok (s1, 0) /\
    setup_board_tags s1 in_params = (s2, in_params + total_bytes (pass_through l)) /\
    read_bytes (ram s2) in_params (length (concat (pass_through l)))
    = concat (pass_through l).
Proof.
  rewrite <- kept_pass_through. intros Hsrc Hcore Hsz Hne Hp Hblock Hfuel.
  pose proof Hsrc as (Hwf & Hl & _).
  destruct (source_list_bounds _ _ _ Hsrc) as (Hk0 & Hkl & Hfit).
  pose proof (kept_nonempty_bytes l Hwf Hne) as Hn.
  destruct (copy_atags_run malloc s (fw_atags s) l fuel) as (e & m' & Hrun & Hbuf & _);
    rewrite ?Hsz, ?Z.add_0_l; try assumption; try lia.
  rewrite Hsz, Z.add_0_l in Hrun, Hbuf.
  unfold misc_init_r. rewrite (fw_atags_get_core s l) by assumption. rewrite Hrun.
  match goal with
  | |- context [check_keys ?u ?d ?f ?x] =>
      destruct (check_keys_frame u d f x) as [e2 He2]
  end.
  rewrite He2. do 2 eexists. split; [reflexivity|].
  unfold setup_board_tags.
  cbn [ram fw_atags_copy fw_atags_size set_ram set_fw_atags_copy set_fw_atags_size
       set_env].
  apply Z.eqb_neq in Hp. rewrite Hp. split; [reflexivity|].
  cbn [ram set_ram]. unfold total_bytes. rewrite memcpy_read_bytes. exact Hbuf.
Qed.

(** X7. [copy_atags] is for one run only: [fw_atags_size] is not reset, so a
    second run on the same list asks [malloc] for twice the bytes and leaves
    twice the size in [fw_atags_size], while it fills only the first half of
    the new block; the second half keeps what memory held there. *)
Theorem copy_atags_twice_doubles_size (malloc1 malloc2 : Z -> Z) (s s1 : state)
    (l : list (list byte)) (fuel : nat) :
  source_list (ram s) (fw_atags s) l ->
  fw_atags_size s = 0 -> kept l <> [] ->
  malloc1 (total_bytes (kept l)) <> 0 ->
  block_ok (malloc1 (total_bytes (kept l))) (total_bytes (kept l)) (fw_atags s) l ->
  (length l < fuel)%nat ->
  copy_atags malloc1 fuel (fw_atags s) s = Ok s1 ->
  2 * total_bytes (kept l) < 2 ^ 32 ->
  malloc2 (2 * total_bytes (kept l)) <> 0 ->
  block_ok (malloc2 (2 * total_bytes (kept l))) (2 * total_bytes (kept l)) (fw_atags s) l ->
  exists s2,
    copy_atags malloc2 fuel (fw_atags s) s1 = Ok s2 /\
    fw_atags_size s2 = 2 * total_bytes (kept l) /\
    fw_atags_copy s2 = malloc2 (2 * total_bytes (kept l)) /\
    read_bytes (ram s2) (fw_atags_copy s2) (length (concat (kept l))) = concat (kept l) /\
    (forall x, fw_atags_copy s2 + total_bytes (kept l) <= x
               < fw_atags_copy s2 + fw_atags_size s2 ->
               ram s2 x = ram s1 x).
Proof.
  intros Hsrc Hsz Hne Hp1 Hb1 Hfuel Hrun1 Hfit2 Hp2 Hb2.
  pose proof Hsrc as (Hwf & _).
  destruct (source_list_bounds _ _ _ Hsrc) as (Hk0 & Hkl & Hfit).
  pose proof (kept_nonempty_bytes l Hwf Hne) as Hn.
  destruct (copy_atags_run malloc1 s (fw_atags s) l fuel)
    as (e & m' & Hrun1' & _ & _ & Hsrc1);
    rewrite ?Hsz, ?Z.add_0_l; try assumption; try lia.
  rewrite Hsz, Z.add_0_l in Hrun1'. rewrite Hrun1' in Hrun1. injection Hrun1 as <-.
  set (n := total_bytes (kept l)) in *.
  set (s1 := set_ram m' (set_fw_atags_copy (malloc1 n) (set_fw_atags_size n (set_env e s)))).
  assert (Hsize1 : fw_atags_size s1 = n) by reflexivity.
  destruct (copy_atags_run malloc2 s1 (fw_atags s) l fuel)
    as (e2 & m2 & Hrun2 & Hbuf2 & Hframe2 & _);
    rewrite ?Hsize1; fold n; replace (n + n) with (2 * n) by lia;
    try assumption; try lia.
  rewrite Hsize1 in Hrun2, Hbuf2, Hframe2. fold n in Hrun2, Hbuf2, Hframe2.
  replace (n + n) with (2 * n) in Hrun2, Hbuf2, Hframe2 by lia.
  eexists. split; [exact Hrun2|].
  cbn [ram fw_atags_copy fw_atags_size set_ram set_fw_atags_copy set_fw_atags_size
       set_env].
  split; [reflexivity|]. split; [reflexivity|]. split; [exact Hbuf2|].
  intros x Hx. apply Hframe2. lia.
Qed.

(** ** More on RAM extraction *)

Lemma sumZ_app (xs ys : list Z) : sumZ (xs ++ ys) = sumZ xs + sumZ ys.
Proof. induction xs as [|x xs IH]; simpl; [reflexivity|]. rewrite IH. lia. Qed.

Lemma mem_banks_sizes (l : list (list byte)) :
  List.map snd (mem_banks l) = mem_sizes l.
Proof. unfold mem_banks, mem_sizes. rewrite List.map_map. reflexivity. Qed.

Lemma dram_init_run (s : state) (l : list (list byte)) (fuel : nat) :
  source_list (ram s) (fw_atags s) l -> first_is_core l = true ->
  forallb wf_mem_record l = true ->
  0 <= gd_ram_size s < 2 ^ phys_size_bits ->
  (length l < fuel)%nat ->
  dram_init fuel s =
  Ok (set_gd_ram_size (wrap_phys (gd_ram_size s + sumZ (mem_sizes l))) s, 0).
Proof.
  intros (Hwf & Hl & Ha & _) Hcore Hwm Hg Hfuel.
  unfold dram_init. rewrite (fw_atags_get_core s l) by assumption.
  replace (fw_atags s =? 0) with false by (symmetry; apply Z.eqb_neq; lia).
  rewrite (dram_init_loop l) by assumption. reflexivity.
Qed.

Lemma dram_init_banksize_run (s : state) (l : list (list byte)) (fuel : nat) :
  source_list (ram s) (fw_atags s) l -> first_is_core l = true ->
  forallb wf_mem_record l = true ->
  0 < CONFIG_NR_DRAM_BANKS ->
  Z.of_nat (length (gd_bd_bi_dram s)) = CONFIG_NR_DRAM_BANKS ->
  (length l < fuel)%nat ->
  dram_init_banksize fuel s =
  Ok (set_gd_bd_bi_dram
        (take (length (gd_bd_bi_dram s)) (mem_banks l)
         ++ drop (length (take (length (gd_bd_bi_dram s)) (mem_banks l)))
              (gd_bd_bi_dram s)) s, 0).
Proof.
  intros (Hwf & Hl & Ha & _) Hcore Hwm Hnr Hlen Hfuel.
  unfold dram_init_banksize. rewrite (fw_atags_get_core s l) by assumption.
  replace (fw_atags s =? 0) with false by (symmetry; apply Z.eqb_neq; lia).
  destruct (dram_init_banksize_loop l (fw_atags s) s 0%nat fuel) as [b' Hrun];
    try assumption; try lia.
  change 0 with (Z.of_nat 0) at 1. rewrite Hrun.
  rewrite take_0, Nat.sub_0_r. reflexivity.
Qed.

(** X8. [dram_init] adds to [gd->ram_size] each time it runs: a second run
    on the same list leaves the total at the initial value plus twice the
    sum of the MEM sizes (modulo the width of [phys_size_t]). *)
Theorem dram_init_twice_accumulates (s : state) (l : list (list byte)) (fuel : nat) :
  source_list (ram s) (fw_atags s) l -> first_is_core l = true ->
  forallb wf_mem_record l = true ->
  0 <= gd_ram_size s < 2 ^ phys_size_bits ->
  (length l < fuel)%nat ->
  exists s1 s2,
    dram_init fuel s = Ok (s1, 0) /\ dram_init fuel s1 = Ok (s2, 0) /\
    gd_ram_size s2 = (gd_ram_size s + 2 * sumZ (mem_sizes l)) mod 2 ^ phys_size_bits.
Proof.
  intros Hsrc Hcore Hwm Hg Hfuel.
  rewrite (dram_init_run s l fuel) by assumption.
  set (s1 := set_gd_ram_size (wrap_phys (gd_ram_size s + sumZ (mem_sizes l))) s).
  assert (Hg1 : 0 <= gd_ram_size s1 < 2 ^ phys_size_bits)
    by (apply wrap_phys_range; lia).
  exists s1. eexists. split; [reflexivity|].
  rewrite (dram_init_run s1 l fuel) by assumption.
  split; [reflexivity|].
  cbn [gd_ram_size set_gd_ram_size]. subst s1. cbn [gd_ram_size set_gd_ram_size].
  rewrite wrap_phys_add_l. unfold wrap_phys. f_equal. lia.
Qed.

(** X9. [dram_init_banksize] starts at bank 0 each time: a second run on the
    same list writes the same entries again and leaves the state as the
    first run left it. *)
Theorem dram_init_banksize_idempotent (s : state) (l : list (list byte)) (fuel : nat) :
  source_list (ram s) (fw_atags s) l -> first_is_core l = true ->
  forallb wf_mem_record l = true ->
  0 < CONFIG_NR_DRAM_BANKS ->
  Z.of_nat (length (gd_bd_bi_dram s)) = CONFIG_NR_DRAM_BANKS ->
  (length l < fuel)%nat ->
  exists s1,
    dram_init_banksize fuel s = Ok (s1, 0) /\ dram_init_banksize fuel s1 = Ok (s1, 0).
Proof.
  intros Hsrc Hcore Hwm Hnr Hlen Hfuel.
  rewrite (dram_init_banksize_run s l fuel) by assumption.
  set (T := gd_bd_bi_dram s) in *. set (B := take (length T) (mem_banks l)).
  assert (HB : (length B <= length T)%nat) by (subst B; rewrite length_take; lia).
  assert (HT1 : length (B ++ drop (length B) T) = length T).
  { rewrite length_app, length_drop. lia. }
  exists (set_gd_bd_bi_dram (B ++ drop (length B) T) s). split; [reflexivity|].
  rewrite (dram_init_banksize_run _ l fuel);
    cbn [ram fw_atags gd_bd_bi_dram set_gd_bd_bi_dram]; rewrite ?HT1;
    try assumption.
  fold B. rewrite drop_app_length. reflexivity.
Qed.

(** X10. How the RAM total and the bank table agree, for a total that
    starts at 0 and does not overflow: the sizes in the first
    min(n, capacity) entries of the table add up to the sizes of the first
    min(n, capacity) MEM records, the total to the sizes of all of them; so
    the total is the sum over the table's entries exactly when the table
    takes every MEM record, and is never below it. *)
Theorem ram_size_and_banks_agree (s : state) (l : list (list byte)) (fuel : nat) :
  source_list (ram s) (fw_atags s) l -> first_is_core l = true ->
  forallb wf_mem_record l = true ->
  gd_ram_size s = 0 -> sumZ (mem_sizes l) < 2 ^ phys_size_bits ->
  0 < CONFIG_NR_DRAM_BANKS ->
  Z.of_nat (length (gd_bd_bi_dram s)) = CONFIG_NR_DRAM_BANKS ->
  (length l < fuel)%nat ->
  let k := Nat.min (length (mem_sizes l)) (length (gd_bd_bi_dram s)) in
  exists s1 s2,
    dram_init fuel s = Ok (s1, 0) /\ dram_init_banksize fuel s = Ok (s2, 0) /\
    gd_ram_size s1 = sumZ (mem_sizes l) /\
    sumZ (List.map snd (take k (gd_bd_bi_dram s2))) = sumZ (take k (mem_sizes l)) /\
    gd_ram_size s1 =
    sumZ (List.map snd (take k (gd_bd_bi_dram s2))) + sumZ (drop k (mem_sizes l)) /\
    ((length (mem_sizes l) <= length (gd_bd_bi_dram s))%nat ->
     gd_ram_size s1 = sumZ (List.map snd (take k (gd_bd_bi_dram s2)))).
Proof.
  intros Hsrc Hcore Hwm Hg0 Hfit Hnr Hlen Hfuel k.
  pose proof (mem_sizes_nonneg l) as Hsum.
  rewrite (dram_init_run s l fuel) by (assumption || lia).
  rewrite (dram_init_banksize_run s l fuel) by assumption.
  do 2 eexists. split; [reflexivity|]. split; [reflexivity|].
  cbn [gd_ram_size set_gd_ram_size gd_bd_bi_dram set_gd_bd_bi_dram].
  set (T := gd_bd_bi_dram s) in *.
  assert (Htot : wrap_phys (gd_ram_size s + sumZ (mem_sizes l)) = sumZ (mem_sizes l)).
  { rewrite Hg0, Z.add_0_l. apply wrap_phys_small. lia. }
  assert (Hk : length (take (length T) (mem_banks l)) = k).
  { rewrite length_take. subst k. rewrite <- mem_banks_sizes, List.length_map. lia. }
  assert (Htab : List.map snd (take k (take (length T) (mem_banks l)
                                       ++ drop (length (take (length T) (mem_banks l))) T))
                 = take k (mem_sizes l)).
  { rewrite take_app_length' by (symmetry; exact Hk).
    rewrite <- mem_banks_sizes.
    replace (take (length T) (mem_banks l)) with (take k (mem_banks l)).
    - unfold k. rewrite <- fmap_take. reflexivity.
    - subst k. rewrite <- mem_banks_sizes, List.length_map.
      apply take_min_length. }
  rewrite Htot, Htab. split; [reflexivity|]. split; [reflexivity|]. split.
  - rewrite <- sumZ_app, take_drop. reflexivity.
  - intros Hall. rewrite take_ge by (subst k; lia). reflexivity.
Qed.

(** X11. On any memory, whatever the list looks like, [dram_init] changes
    nothing but [gd->ram_size]. *)
Theorem dram_init_frame (fuel : nat) (s s' : state) (r : Z) :
  dram_init fuel s = Ok (s', r) -> s' = set_gd_ram_size (gd_ram_size s') s.
Proof.
  unfold dram_init. destruct (fw_atags_get s =? 0).
  - intros [= <- _]. destruct s. reflexivity.
  - destruct (for_each_tag ram dram_init_body fuel (fw_atags_get s) s) as [s1| |] eqn:Hrun;
      try discriminate.
    intros [= <- _].
    apply (for_each_tag_invariant (fun x => x = set_gd_ram_size (gd_ram_size x) s)
             ram dram_init_body) with (fuel := fuel) (t := fw_atags_get s) (s := s);
      [|destruct s; reflexivity|exact Hrun].
    intros t s2 c s3 H2. unfold dram_init_body.
    destruct (negb (hdr_tag (ram s2) t =? ATAG_MEM)).
    + intros [= _ <-]. exact H2.
    + intros [= _ <-]. rewrite H2. reflexivity.
Qed.

(** X12. On any memory, whatever the list looks like, [dram_init_banksize]
    with a table of at least CONFIG_NR_DRAM_BANKS >= 1 entries never stores
    outside the table, changes nothing but the table, and keeps its
    length. *)
Theorem dram_init_banksize_in_bounds (fuel : nat) (s : state) :
  0 < CONFIG_NR_DRAM_BANKS ->
  CONFIG_NR_DRAM_BANKS <= Z.of_nat (length (gd_bd_bi_dram s)) ->
  dram_init_banksize fuel s <> Undefined /\
  (forall s' r, dram_init_banksize fuel s = Ok (s', r) ->
                s' = set_gd_bd_bi_dram (gd_bd_bi_dram s') s /\
                length (gd_bd_bi_dram s') = length (gd_bd_bi_dram s)).
Proof.
  intros Hnr Hlen.
  set (P := fun sb : state * Z =>
              fst sb = set_gd_bd_bi_dram (gd_bd_bi_dram (fst sb)) s /\
              length (gd_bd_bi_dram (fst sb)) = length (gd_bd_bi_dram s)).
  set (Q := fun sb : state * Z => P sb /\ 0 <= snd sb < CONFIG_NR_DRAM_BANKS).
  assert (HP0 : P (s, 0)) by (split; [destruct s; reflexivity|reflexivity]).
  assert (Hstep : forall t sb, Q sb ->
             exists c sb', dram_init_banksize_body t sb = Ok (c, sb') /\
                           P sb' /\ (c = Next -> Q sb')).
  { intros t [s1 b] [[H1 H2] Hb]. simpl in H1, H2, Hb.
    unfold dram_init_banksize_body.
    destruct (negb (hdr_tag (ram s1) t =? ATAG_MEM)).
    - exists Next, (s1, b). repeat split; auto; simpl; lia.
    - replace ((0 <=? b) && (b <? Z.of_nat (length (gd_bd_bi_dram s1)))) with true
        by (symmetry; apply andb_true_iff; split;
            [apply Z.leb_le|apply Z.ltb_lt]; lia).
      assert (HP' : forall b', P (set_gd_bd_bi_dram
                  (<[Z.to_nat b := (u_mem_start (ram s1) t, u_mem_size (ram s1) t)]>
                     (gd_bd_bi_dram s1)) s1, b')).
      { intros b'. split; cbn [fst gd_bd_bi_dram set_gd_bd_bi_dram].
        - rewrite H1. reflexivity.
        - rewrite length_insert. exact H2. }
      destruct (b + 1 =? CONFIG_NR_DRAM_BANKS) eqn:Hlast.
      + do 2 eexists. split; [reflexivity|]. split; [apply HP'|discriminate].
      + apply Z.eqb_neq in Hlast. do 2 eexists. split; [reflexivity|].
        split; [apply HP'|]. intros _. split; [apply HP'|]. simpl. lia. }
  unfold dram_init_banksize. destruct (fw_atags_get s =? 0).
  - split; [discriminate|]. intros s' r [= <- _]. destruct HP0 as [H1 H2]. auto.
  - split.
    + assert (Hdef : for_each_tag (fun sb : state * Z => ram (fst sb))
                       dram_init_banksize_body fuel (fw_atags_get s) (s, 0) <> Undefined).
      { apply (for_each_tag_defined Q).
        - intros t sb HQ. destruct (Hstep t sb HQ) as (c & sb' & Hb & _ & HQ').
          eauto.
        - split; [exact HP0|]. simpl. lia. }
      destruct (for_each_tag _ _ fuel (fw_atags_get s) (s, 0)) as [[s1 b1]| |];
        [discriminate|discriminate|contradiction].
    + intros s' r.
      destruct (for_each_tag (fun sb : state * Z => ram (fst sb))
                  dram_init_banksize_body fuel (fw_atags_get s) (s, 0))
        as [[s1 b1]| |] eqn:Hrun; try discriminate.
      intros [= <- _].
      assert (HQ1 : P (s1, b1) /\ (True)).
      { split; [|exact I].
        revert Hrun. generalize (fw_atags_get s) as t.
        assert (Hgen : forall fuel' t sb sb',
                   Q sb -> for_each_tag (fun sb : state * Z => ram (fst sb))
                             dram_init_banksize_body fuel' t sb = Ok sb' -> P sb').
        { induction fuel' as [|fuel' IH]; intros t sb sb' HQ Hr; simpl in Hr;
            [discriminate|].
          destruct (for_each_tag_cond (ram (fst sb)) t).
          - destruct (Hstep t sb HQ) as (c & sb1 & Hb & HPb & HQb).
            rewrite Hb in Hr. destruct c.
            + apply (IH _ _ _ (HQb eq_refl) Hr).
            + injection Hr as <-. exact HPb.
          - injection Hr as <-. apply HQ. }
        intros t Hr. apply (Hgen fuel t (s, 0) (s1, b1)); [|exact Hr].
        split; [exact HP0|]. simpl. lia. }
      destruct HQ1 as [[H1 H2] _]. auto.
Qed.

(** ** The keys *)

(** X13. [check_keys] and the environment: without a device tree it does
    nothing; with one, [bootcmd] becomes the recovery command exactly when
    volume-up reads 1, [preboot] becomes the fastboot command exactly when
    volume-down reads 1, each independently of the other, and no other key
    and nothing outside the environment changes. *)
Theorem check_keys_env (vol_up vol_down fdt : Z) (s : state) :
  (fdt = 0 -> check_keys vol_up vol_down fdt s = s) /\
  (fdt <> 0 ->
   env (check_keys vol_up vol_down fdt s) !! "bootcmd"%string
   = (if vol_up =? 1 then Some "run recoverybootcmd"%string
      else env s !! "bootcmd"%string) /\
   env (check_keys vol_up vol_down fdt s) !! "preboot"%string
   = (if vol_down =? 1 then Some "setenv preboot; run fastbootcmd"%string
      else env s !! "preboot"%string) /\
   (forall k : string, k <> "bootcmd"%string -> k <> "preboot"%string ->
                       env (check_keys vol_up vol_down fdt s) !! k = env s !! k) /\
   check_keys vol_up vol_down fdt s
   = set_env (env (check_keys vol_up vol_down fdt s)) s).
Proof.
  unfold check_keys. split.
  - intros ->. reflexivity.
  - intros Hfdt. apply Z.eqb_neq in Hfdt. rewrite Hfdt. unfold env_set.
    destruct (vol_up =? 1), (vol_down =? 1); cbn [env set_env];
      (split; [|split; [|split]]);
      try (intros k Hk1 Hk2);
      rewrite ?lookup_insert_eq, ?lookup_insert_ne by congruence;
      rewrite ?lookup_insert_eq;
      try reflexivity; try (destruct s; reflexivity).
Qed.

Lemma first_subnode_found (sub : Z -> Z -> string -> Z) (fdt : Z) (name : string)
    (nodes : list Z) (cur : Z) :
  0 <= cur -> first_subnode sub fdt name nodes cur = cur.
Proof.
  intros Hcur. unfold first_subnode. induction nodes as [|o nodes IH]; simpl;
    [reflexivity|].
  replace (cur <? 0) with false by (symmetry; apply Z.ltb_ge; exact Hcur).
  exact IH.
Qed.

Lemma request_gpio_keys_loop_spec (notfound : Z) (next sub : Z -> Z -> string -> Z)
    (fdt : Z) (nodes : list Z) :
  forall (fuel : nat) (offset vol_up_node vol_down_node : Z),
    gpio_keys_nodes_at notfound next fdt offset nodes ->
    (length nodes < fuel)%nat ->
    request_gpio_keys_loop notfound next sub fuel fdt offset vol_up_node vol_down_node
    = Ok (first_subnode sub fdt "volume-up" nodes vol_up_node,
          first_subnode sub fdt "volume-down" nodes vol_down_node).
Proof.
  induction nodes as [|o nodes IH]; intros fuel offset vu vd Hchain Hfuel;
    (destruct fuel as [|fuel]; [simpl in Hfuel; lia|]); simpl in Hchain |- *.
  - subst offset. rewrite Z.eqb_refl. reflexivity.
  - destruct Hchain as (-> & Hne & Hrest).
    apply Z.eqb_neq in Hne. rewrite Hne. cbn [negb].
    set (vu' := if vu <? 0 then sub fdt o "volume-up"%string else vu).
    set (vd' := if vd <? 0 then sub fdt o "volume-down"%string else vd).
    change (first_subnode sub fdt "volume-up" (o :: nodes) vu)
      with (first_subnode sub fdt "volume-up" nodes vu').
    change (first_subnode sub fdt "volume-down" (o :: nodes) vd)
      with (first_subnode sub fdt "volume-down" nodes vd').
    destruct ((vu' >=? 0) && (vd' >=? 0)) eqn:Hboth.
    + apply andb_true_iff in Hboth as [Hu Hd].
      apply Z.geb_le in Hu. apply Z.geb_le in Hd.
      rewrite !first_subnode_found by assumption. reflexivity.
    + apply IH; [exact Hrest|simpl in Hfuel; lia].
Qed.

(** X14. The search of [request_gpio_keys]: over the gpio-keys nodes of the
    tree, in the order the lookup by compatible yields them, the loop ends
    with the volume-up subnode of the first node that has one and the
    volume-down subnode of the first node that has one, each found
    independently; leaving the loop early, once both are found, changes
    nothing. *)
Theorem request_gpio_keys_first_match (notfound : Z)
    (next sub : Z -> Z -> string -> Z) (fdt : Z) (nodes : list Z) (fuel : nat) :
  gpio_keys_nodes_at notfound next fdt (next fdt (-1) "gpio-keys"%string) nodes ->
  (length nodes < fuel)%nat ->
  request_gpio_keys_loop notfound next sub fuel fdt
    (next fdt (-1) "gpio-keys"%string) (- notfound) (- notfound)
  = Ok (first_subnode sub fdt "volume-up" nodes (- notfound),
        first_subnode sub fdt "volume-down" nodes (- notfound)) /\
  (forall (name : string) (before after : list Z) (o : Z),
     0 < notfound -> nodes = before ++ o :: after ->
     Forall (fun o' => sub fdt o' name < 0) before -> 0 <= sub fdt o name ->
     first_subnode sub fdt name nodes (- notfound) = sub fdt o name) /\
  (forall name : string,
     0 < notfound -> Forall (fun o' => sub fdt o' name < 0) nodes ->
     first_subnode sub fdt name nodes (- notfound) < 0).
Proof.
  intros Hchain Hfuel. split; [apply request_gpio_keys_loop_spec; assumption|].
  assert (Hneg : forall name (l : list Z) cur,
             cur < 0 -> Forall (fun o' => sub fdt o' name < 0) l ->
             first_subnode sub fdt name l cur < 0 /\
             forall o after, 0 <= sub fdt o name ->
                             first_subnode sub fdt name (l ++ o :: after) cur
                             = sub fdt o name).
  { intros name l. induction l as [|o' l IH]; intros cur Hcur Hall.
    - split; [exact Hcur|]. intros o after Ho. unfold first_subnode. simpl.
      replace (cur <? 0) with true by (symmetry; apply Z.ltb_lt; exact Hcur).
      apply (first_subnode_found sub fdt name after). exact Ho.
    - inversion Hall as [|? ? Ho' Hall']; subst.
      unfold first_subnode in *. simpl.
      replace (cur <? 0) with true by (symmetry; apply Z.ltb_lt; exact Hcur).
      apply IH; assumption. }
  split.
  - intros name before after o Hnf -> Hbefore Ho.
    apply (Hneg name before (- notfound)); [lia|assumption|assumption].
  - intros name Hnf Hall. apply (Hneg name nodes (- notfound)); [lia|assumption].
Qed.

(** X15. [check_keys] as a whole: without a device tree it touches neither
    the drivers nor the state; with one, it requests the GPIOs of the two
    nodes the search found (none for a node that was not found, whose
    descriptor stays zeroed), volume-up first, and then writes to the
    environment what the two values read from them decide. *)
Theorem check_keys_dm_spec (notfound : Z) (next sub : Z -> Z -> string -> Z)
    (dm_state gpio_desc : Type) (zero : gpio_desc)
    (request : dm_state -> Z -> gpio_desc -> dm_state * Z * gpio_desc)
    (value : dm_state -> gpio_desc -> Z)
    (fdt : Z) (nodes : list Z) (fuel : nat) (w : dm_state) (s : state) :
  gpio_keys_nodes_at notfound next fdt (next fdt (-1) "gpio-keys"%string) nodes ->
  (length nodes < fuel)%nat ->
  check_keys_dm notfound next sub dm_state gpio_desc zero request value fuel w 0 s
  = Ok (w, s) /\
  (fdt <> 0 ->
   let up_node := first_subnode sub fdt "volume-up" nodes (- notfound) in
   let down_node := first_subnode sub fdt "volume-down" nodes (- notfound) in
   let w1 := if up_node <? 0 then w else fst (fst (request w up_node zero)) in
   let up := if up_node <? 0 then zero else snd (request w up_node zero) in
   let w2 := if down_node <? 0 then w1 else fst (fst (request w1 down_node zero)) in
   let down := if down_node <? 0 then zero else snd (request w1 down_node zero) in
   check_keys_dm notfound next sub dm_state gpio_desc zero request value fuel w fdt s
   = Ok (w2, check_keys (value w2 up) (value w2 down) fdt s)).
Proof.
  intros Hchain Hfuel. split; [reflexivity|].
  intros Hfdt. cbn zeta. apply Z.eqb_neq in Hfdt.
  unfold check_keys_dm, check_keys, request_gpio_keys. rewrite Hfdt.
  rewrite (request_gpio_keys_loop_spec notfound next sub fdt nodes) by assumption.
  unfold request_gpio_key. cbn [vol_up vol_down].
  set (up_node := first_subnode sub fdt "volume-up" nodes (- notfound)).
  set (down_node := first_subnode sub fdt "volume-down" nodes (- notfound)).
  destruct (up_node <? 0).
  - destruct (down_node <? 0); [reflexivity|].
    destruct (request w down_node zero) as [[wa ra] da]. reflexivity.
  - destruct (request w up_node zero) as [[wa ra] da]. cbn [fst snd].
    destruct (down_node <? 0); [reflexivity|].
    destruct (request wa down_node zero) as [[wb rb] db]. reflexivity.
Qed.

(** ** The boot parameters *)

(** X16. What the primary bootloader passed in r1 and r2 reaches the board
    data: after [save_boot_params] and [board_init], [bi_arch_number] is r1
    and [bi_boot_params] is r2, and [fw_atags_get] reads the list at r2; r0
    and r3 play no part, [board_init] returns 0 and touches nothing else. *)
Theorem board_init_after_save_boot_params (r0 r1 r2 r3 : Z) (s : state) :
  let s1 := save_boot_params r0 r1 r2 r3 s in
  let s2 := fst (board_init s1) in
  snd (board_init s1) = 0 /\
  gd_bd_bi_arch_number s2 = r1 /\ gd_bd_bi_boot_params s2 = r2 /\
  fw_atags_get s2 = (if hdr_tag (ram s) r2 =? ATAG_CORE then r2 else 0) /\
  s1 = save_boot_params 0 r1 r2 0 s /\
  ram s2 = ram s /\ env s2 = env s /\ fw_atags_copy s2 = fw_atags_copy s /\
  fw_atags_size s2 = fw_atags_size s /\ gd_ram_size s2 = gd_ram_size s /\
  gd_bd_bi_dram s2 = gd_bd_bi_dram s /\ gd_fdt_blob s2 = gd_fdt_blob s.
Proof.
  cbn zeta. unfold board_init, save_boot_params, fw_atags_get.
  cbn [fst snd ram env fw_mach fw_atags fw_atags_copy fw_atags_size gd_ram_size
       gd_bd_bi_dram gd_bd_bi_arch_number gd_bd_bi_boot_params gd_fdt_blob].
  repeat split. destruct (hdr_tag (ram s) r2 =? ATAG_CORE); reflexivity.
Qed.

(** ** The serial string read back *)

Lemma hex_value_from (ds : list ascii) (acc : Z) :
  fold_left (fun a c => 16 * a + hex_digit_val c) ds acc
  = acc * 16 ^ Z.of_nat (length ds) + hex_value ds.
Proof.
  unfold hex_value. revert acc. induction ds as [|c ds IH]; intros acc.
  - simpl. lia.
  - cbn [fold_left length]. rewrite IH, (IH (16 * 0 + hex_digit_val c)).
    rewrite Nat2Z.inj_succ, Z.pow_succ_r by lia. lia.
Qed.

Lemma hex_value_concat (xs ys : list ascii) :
  hex_value (xs ++ ys) = hex_value xs * 16 ^ Z.of_nat (length ys) + hex_value ys.
Proof. unfold hex_value at 1. rewrite List.fold_left_app. apply hex_value_from. Qed.

(** X17. The string [parse_serial] stores reads back as the 64-bit number
    whose upper half is [high] and whose lower half is [low]; so two records
    with different serial numbers never get the same [serial#]. *)
Theorem serial_string_round_trip (high low high' low' : Z) :
  0 <= high < 2 ^ 32 -> 0 <= low < 2 ^ 32 ->
  0 <= high' < 2 ^ 32 -> 0 <= low' < 2 ^ 32 ->
  hex_value (list_ascii_of_string (sprintf_08x_08x high low)) = high * 2 ^ 32 + low /\
  (sprintf_08x_08x high low = sprintf_08x_08x high' low' -> high = high' /\ low = low').
Proof.
  intros Hh Hl Hh' Hl'.
  assert (Hval : forall a b, 0 <= a < 2 ^ 32 -> 0 <= b < 2 ^ 32 ->
             hex_value (list_ascii_of_string (sprintf_08x_08x a b)) = a * 2 ^ 32 + b).
  { intros a b Ha Hb. unfold sprintf_08x_08x.
    rewrite list_ascii_of_string_of_list_ascii, hex_value_concat.
    rewrite !fmt_08x_value, fmt_08x_length, !wrap32_small by assumption.
    reflexivity. }
  split; [apply Hval; assumption|].
  intros Heq. apply (f_equal (fun x => hex_value (list_ascii_of_string x))) in Heq.
  rewrite !Hval in Heq by assumption. lia.
Qed.

End Facts.

(** ** The claims at work on the concrete board *)

#[local] Existing Instance arm_headers.

Ltac by_computation :=
  vm_compute; repeat split; try reflexivity; try discriminate.

Lemma ex_source_list : source_list (ram ex_state) (fw_atags ex_state) ex_list.
Proof. by_computation. Defined.

Lemma copy_pass_writes_size_pass_total_witness :
  exists s1 s2,
    copy_atags_size_pass 10 (fw_atags_get ex_state) ex_state = Ok s1 /\
    fw_atags_size s1 = 32 /\
    copy_atags_copy_pass 10 (fw_atags_get ex_state) (set_fw_atags_copy 0x1000 s1) 0x1000
    = Ok (s2, 0x1020) /\
    read_bytes (ram s2) 0x1000 32 = ex_mem ++ ex_serial.
Proof.
  destruct (copy_pass_writes_size_pass_total ex_state ex_list 0x1000 10)
    as (s1 & s2 & copy_end & Hsize & _ & Hsum & Hcopy & Hend & Hbytes & _).
  - exact ex_source_list.
  - reflexivity.
  - reflexivity.
  - split; [reflexivity|]. split; [by_computation|right; by_computation].
  - simpl. lia.
  - exists s1, s2. split; [exact Hsize|].
    assert (Hn : fw_atags_size s1 = 32) by (rewrite Hsum; reflexivity).
    split; [exact Hn|]. split; [rewrite Hcopy; do 2 f_equal; lia|].
    rewrite Hn in Hbytes. exact Hbytes.
Defined.

Lemma ex_block_ok :
  block_ok (ex_malloc (total_bytes (pass_through ex_list)))
    (total_bytes (pass_through ex_list)) (fw_atags ex_state) ex_list.
Proof. split; [reflexivity|]. split; [by_computation|right; by_computation]. Defined.

Lemma copy_atags_keeps_pass_through_witness :
  exists s',
    copy_atags ex_malloc 10 (fw_atags_get ex_state) ex_state = Ok s' /\
    fw_atags_copy s' = 0x1000 /\ fw_atags_size s' = 32 /\
    read_bytes (ram s') 0x1000 32 = ex_mem ++ ex_serial.
Proof.
  destruct (copy_atags_keeps_pass_through ex_malloc ex_state ex_list 10)
    as (s' & Hrun & Hsize & Hbuf & _).
  - exact ex_source_list.
  - reflexivity.
  - reflexivity.
  - intros _. exact ex_block_ok.
  - simpl. lia.
  - destruct Hbuf as [Hcopy Hbytes]; [by_computation|by_computation|].
    exists s'. split; [exact Hrun|]. split; [exact Hcopy|].
    split; [exact Hsize|]. rewrite Hcopy, Hsize in Hbytes. exact Hbytes.
Defined.

Lemma ex_copied : copy_atags ex_malloc 10 (fw_atags_get ex_state) ex_state = Ok ex_state_copied.
Proof.
  unfold ex_state_copied. change (fw_atags_get ex_state) with 0x100.
  destruct (copy_atags ex_malloc 10 0x100 ex_state) eqn:E;
    [reflexivity | vm_compute in E; discriminate | vm_compute in E; discriminate].
Defined.

Lemma copy_atags_idempotent_witness :
  exists t',
    copy_atags ex_malloc2 10 0x200 ex_state_fed_back = Ok t' /\
    fw_atags_copy t' = 0x3000 /\
    fw_atags_size t' = 32 /\
    read_bytes (ram t') (fw_atags_copy t') (Z.to_nat (fw_atags_size t'))
    = read_bytes (ram ex_state_copied) (fw_atags_copy ex_state_copied)
        (Z.to_nat (fw_atags_size ex_state_copied)).
Proof.
  destruct (copy_atags_idempotent ex_malloc ex_malloc2 ex_state ex_state_copied
              ex_state_fed_back ex_list 0x200 10 10) as (_ & t' & Hrun & Hcopy & Hsize & Hbytes).
  - exact ex_source_list.
  - reflexivity.
  - reflexivity.
  - by_computation.
  - by_computation.
  - exact ex_block_ok.
  - simpl. lia.
  - exact ex_copied.
  - vm_compute. reflexivity.
  - vm_compute. reflexivity.
  - reflexivity.
  - by_computation.
  - reflexivity.
  - reflexivity.
  - by_computation.
  - right. by_computation.
  - simpl. lia.
  - exists t'. split; [exact Hrun|]. split; [exact Hcopy|].
    split; [rewrite Hsize; vm_compute; reflexivity|exact Hbytes].
Defined.

Lemma copy_atags_malloc_failure_witness :
  exists s2,
    misc_init_r (fun _ => 0) 1 0 10 ex_state = Ok (s2, 0) /\
    fw_atags_copy s2 = 0 /\
    setup_board_tags s2 0x2000 = (s2, 0x2000).
Proof.
  destruct (copy_atags_malloc_failure (fun _ => 0) 1 0 ex_state ex_list 10)
    as (s1 & s2 & _ & _ & _ & Hmisc & Hnull & _ & Hsetup).
  - exact ex_source_list.
  - reflexivity.
  - reflexivity.
  - reflexivity.
  - reflexivity.
  - simpl. lia.
  - exists s2. split; [exact Hmisc|]. split; [exact Hnull|]. apply Hsetup.
Defined.

Lemma setup_board_tags_spec_witness :
  (exists m',
     setup_board_tags ex_state_copied 0x2000 = (set_ram m' ex_state_copied, 0x2020) /\
     read_bytes m' 0x2000 32 = ex_mem ++ ex_serial) /\
  setup_board_tags ex_state 0x2000 = (ex_state, 0x2000).
Proof.
  split.
  - destruct (proj1 (setup_board_tags_spec ex_state_copied 0x2000))
      as (m' & Hrun & Hbytes & _); [by_computation|].
    assert (Hn : fw_atags_size ex_state_copied = 32) by (vm_compute; reflexivity).
    rewrite Hn in Hrun, Hbytes. exists m'. split; [exact Hrun|].
    change (Z.to_nat 32) with 32%nat in Hbytes. rewrite Hbytes.
    vm_compute. reflexivity.
  - apply (proj1 (proj2 (setup_board_tags_spec ex_state 0x2000))). reflexivity.
Defined.

Lemma invalid_list_reports_no_data_witness :
  fw_atags_get ex_state_invalid = 0 /\
  dram_init 10 ex_state_invalid = Ok (ex_state_invalid, -22) /\
  dram_init_banksize 10 ex_state_invalid = Ok (ex_state_invalid, -22) /\
  copy_atags ex_malloc 10 (fw_atags_get ex_state_invalid) ex_state_invalid
  = Ok ex_state_invalid /\
  misc_init_r ex_malloc 0 0 10 ex_state_invalid = Ok (ex_state_invalid, 0).
Proof.
  assert (Hcore : hdr_tag (ram ex_state_invalid) (fw_atags ex_state_invalid) <> ATAG_CORE)
    by by_computation.
  destruct (invalid_list_reports_no_data ex_malloc ex_state_invalid 10 Hcore)
    as (Hget & Hinit & Hbanks & Hcopy & Hmisc).
  split; [exact Hget|]. split; [exact Hinit|]. split; [exact Hbanks|].
  split; [exact Hcopy|]. exact (Hmisc 0 0).
Defined.

Lemma parse_serial_spec_witness :
  env (parse_serial 0x108 ex_state_serial) !! "serial#"%string
  = Some "0000000200000001"%string /\
  parse_serial 0x108 (env_set "serial#" "SENTINEL" ex_state_serial)
  = env_set "serial#" "SENTINEL" ex_state_serial.
Proof.
  split.
  - destruct (parse_serial_spec ex_state_serial 0x108) as [Hwrite _];
      [reflexivity|reflexivity|].
    apply Hwrite. reflexivity.
  - destruct (parse_serial_spec (env_set "serial#" "SENTINEL" ex_state_serial) 0x108)
      as [_ Hkeep]; [reflexivity|reflexivity|].
    apply (Hkeep "SENTINEL"%string). reflexivity.
Defined.







Lemma dram_extraction_witness :
  dram_init 10 ex_state_banks
  = Ok (set_gd_ram_size 0x1C000000 ex_state_banks, 0) /\
  dram_init_banksize 10 ex_state_banks
  = Ok (set_gd_bd_bi_dram [(0x00000000, 0x10000000); (0x20000000, 0x08000000)]
          ex_state_banks, 0).
Proof.
  destruct (dram_extraction ex_state_banks ex_list_banks 10) as (_ & Hinit & Hbanks).
  - by_computation.
  - reflexivity.
  - reflexivity.
  - by_computation.
  - reflexivity.
  - reflexivity.
  - simpl. lia.
  - split; [apply Hinit; reflexivity|exact Hbanks].
Defined.

(** C3, as stated, fails on the board where the sizes add up to 2^32 or
    more: two MEM records of 2 GiB each leave a RAM total of 0, not their
    sum. *)
Lemma dram_init_total_wraps :
  source_list (ram ex_state_4g) (fw_atags ex_state_4g) ex_list_4g /\
  mem_sizes ex_list_4g = [0x80000000; 0x80000000] /\
  gd_ram_size ex_state_4g = 0 /\
  exists s',
    dram_init 10 ex_state_4g = Ok (s', 0) /\
    gd_ram_size s' = 0 /\
    gd_ram_size s' <> sumZ (mem_sizes ex_list_4g).
Proof.
  split; [by_computation|]. split; [reflexivity|]. split; [reflexivity|].
  exists (set_gd_ram_size 0 ex_state_4g).
  split; [vm_compute; reflexivity|]. split; [reflexivity|].
  by_computation.
Qed.

(** The hand-off of section 8, end to end: from CORE, MEM, SERIALNR, INITRD
    the stage keeps MEM and SERIALNR, finds 1 GiB of RAM in one bank at
    [0x80000000], and sets [serial#]. *)
Example handoff_example :
  read_bytes (ram ex_state_copied) (fw_atags_copy ex_state_copied)
    (Z.to_nat (fw_atags_size ex_state_copied)) = ex_mem ++ ex_serial /\
  env ex_state_copied !! "serial#"%string = Some "0000000000000001"%string /\
  (exists s', dram_init 10 ex_state = Ok (s', 0) /\ gd_ram_size s' = 0x40000000) /\
  (exists s', dram_init_banksize 10 ex_state = Ok (s', 0) /\
              gd_bd_bi_dram s' !! 0%nat = Some (0x80000000, 0x40000000)).
Proof.
  split; [vm_compute; reflexivity|]. split; [vm_compute; reflexivity|]. split.
  - exists (set_gd_ram_size 0x40000000 ex_state). split; vm_compute; reflexivity.
  - exists (set_gd_bd_bi_dram [(0x80000000, 0x40000000); (0, 0)] ex_state).
    split; vm_compute; reflexivity.
Qed.

(** ** The further properties at work on the concrete board *)

Lemma copy_atags_frame_witness :
  gd_ram_size ex_state_copied = gd_ram_size ex_state /\
  gd_bd_bi_dram ex_state_copied = gd_bd_bi_dram ex_state /\
  (forall k : string, k <> "serial#"%string ->
                      env ex_state_copied !! k = env ex_state !! k) /\
  fw_atags_copy ex_state_copied = ex_malloc (fw_atags_size ex_state_copied).
Proof.
  destruct (copy_atags_frame ex_malloc 10 (fw_atags_get ex_state) ex_state
              ex_state_copied ex_copied)
    as (_ & _ & Hram & Hbanks & _ & _ & _ & Henv & _ & Hcopy).
  split; [exact Hram|]. split; [exact Hbanks|]. split; [exact Henv|]. reflexivity.
Defined.

Lemma copy_atags_keeps_alignment_witness :
  fw_atags_size ex_state_copied mod 4 = 0 /\
  0 <= fw_atags_size ex_state_copied < 2 ^ 32 /\
  snd (setup_board_tags ex_state_copied 0x2000) mod 4 = 0x2000 mod 4.
Proof.
  apply (copy_atags_keeps_alignment ex_malloc 10 (fw_atags_get ex_state) ex_state
           ex_state_copied 0x2000).
  - reflexivity.
  - by_computation.
  - exact ex_copied.
Defined.

Lemma ex_serials_source_list :
  source_list (ram ex_state_serials) (fw_atags ex_state_serials) ex_list_serials.
Proof. by_computation. Defined.

Lemma copy_atags_serial_from_first_record_witness :
  exists s',
    copy_atags ex_malloc 10 (fw_atags ex_state_serials) ex_state_serials = Ok s' /\
    env s' = <["serial#"%string := "0000000000000001"%string]> (env ex_state_serials).
Proof.
  destruct (copy_atags_serial_from_first_record ex_malloc ex_state_serials
              ex_list_serials 10) as (s' & Hrun & Henv).
  - exact ex_serials_source_list.
  - reflexivity.
  - reflexivity.
  - reflexivity.
  - intros _. split; [reflexivity|]. split; [by_computation|right; by_computation].
  - simpl. lia.
  - exists s'. split; [exact Hrun|]. rewrite Henv. reflexivity.
Defined.

Lemma ex_kept_block_ok :
  block_ok (ex_malloc (total_bytes (kept ex_list))) (total_bytes (kept ex_list))
    (fw_atags ex_state) ex_list.
Proof. split; [reflexivity|]. split; [by_computation|right; by_computation]. Defined.

Lemma copy_atags_keeps_source_list_witness :
  exists s',
    copy_atags ex_malloc 10 (fw_atags_get ex_state) ex_state = Ok s' /\
    source_list (ram s') (fw_atags s') ex_list /\
    fw_atags_get s' = 0x100.
Proof.
  destruct (copy_atags_keeps_source_list ex_malloc ex_state ex_list 10)
    as (s' & Hrun & Hsrc & Hget & _).
  - exact ex_source_list.
  - reflexivity.
  - reflexivity.
  - by_computation.
  - by_computation.
  - exact ex_kept_block_ok.
  - simpl. lia.
  - exists s'. split; [exact Hrun|]. split; [exact Hsrc|exact Hget].
Defined.

Lemma handoff_emits_pass_through_witness :
  exists s1 s2,
    misc_init_r ex_malloc 1 0 10 ex_state = Ok (s1, 0) /\
    setup_board_tags s1 0x2000 = (s2, 0x2020) /\
    read_bytes (ram s2) 0x2000 32 = ex_mem ++ ex_serial.
Proof.
  destruct (handoff_emits_pass_through ex_malloc 1 0 ex_state ex_list 10 0x2000)
    as (s1 & s2 & Hmisc & Hsetup & Hbytes).
  - exact ex_source_list.
  - reflexivity.
  - reflexivity.
  - by_computation.
  - by_computation.
  - exact ex_block_ok.
  - simpl. lia.
  - exists s1, s2. split; [exact Hmisc|]. split; [exact Hsetup|exact Hbytes].
Defined.

Lemma copy_atags_twice_doubles_size_witness :
  exists s2,
    copy_atags ex_malloc2 10 (fw_atags ex_state) ex_state_copied = Ok s2 /\
    fw_atags_size ex_state_copied = 32 /\ fw_atags_size s2 = 64 /\
    fw_atags_copy s2 = 0x3000.
Proof.
  destruct (copy_atags_twice_doubles_size ex_malloc ex_malloc2 ex_state ex_state_copied
              ex_list 10) as (s2 & Hrun & Hsize & Hcopy & _).
  - exact ex_source_list.
  - reflexivity.
  - by_computation.
  - by_computation.
  - exact ex_kept_block_ok.
  - simpl. lia.
  - exact ex_copied.
  - by_computation.
  - by_computation.
  - split; [reflexivity|]. split; [by_computation|right; by_computation].
  - exists s2. split; [exact Hrun|]. split; [vm_compute; reflexivity|].
    split; [exact Hsize|exact Hcopy].
Defined.

Lemma ex_banks_source_list :
  source_list (ram ex_state_banks) (fw_atags ex_state_banks) ex_list_banks.
Proof. by_computation. Defined.

Lemma dram_init_twice_accumulates_witness :
  exists s1 s2,
    dram_init 10 ex_state_banks = Ok (s1, 0) /\ dram_init 10 s1 = Ok (s2, 0) /\
    gd_ram_size s2 = 0x38000000.
Proof.
  destruct (dram_init_twice_accumulates ex_state_banks ex_list_banks 10)
    as (s1 & s2 & H1 & H2 & Htot).
  - exact ex_banks_source_list.
  - reflexivity.
  - reflexivity.
  - by_computation.
  - simpl. lia.
  - exists s1, s2. split; [exact H1|]. split; [exact H2|]. rewrite Htot. reflexivity.
Defined.

Lemma dram_init_banksize_idempotent_witness :
  exists s1,
    dram_init_banksize 10 ex_state_banks = Ok (s1, 0) /\
    dram_init_banksize 10 s1 = Ok (s1, 0).
Proof.
  apply (dram_init_banksize_idempotent ex_state_banks ex_list_banks 10).
  - exact ex_banks_source_list.
  - reflexivity.
  - reflexivity.
  - reflexivity.
  - reflexivity.
  - simpl. lia.
Defined.

Lemma ram_size_and_banks_agree_witness :
  exists s1 s2,
    dram_init 10 ex_state_banks = Ok (s1, 0) /\
    dram_init_banksize 10 ex_state_banks = Ok (s2, 0) /\
    gd_ram_size s1 = 0x1C000000 /\
    sumZ (List.map snd (take 2 (gd_bd_bi_dram s2))) = 0x18000000.
Proof.
  destruct (ram_size_and_banks_agree ex_state_banks ex_list_banks 10)
    as (s1 & s2 & H1 & H2 & Htot & Htab & _).
  - exact ex_banks_source_list.
  - reflexivity.
  - reflexivity.
  - reflexivity.
  - reflexivity.
  - reflexivity.
  - reflexivity.
  - simpl. lia.
  - exists s1, s2. split; [exact H1|]. split; [exact H2|].
    split; [rewrite Htot; reflexivity|].
    change (Nat.min (length (mem_sizes ex_list_banks))
              (length (gd_bd_bi_dram ex_state_banks))) with 2%nat in Htab.
    rewrite Htab. reflexivity.
Defined.

Lemma ex_banks_dram_init :
  dram_init 10 ex_state_banks = Ok (set_gd_ram_size 0x1C000000 ex_state_banks, 0).
Proof. vm_compute. reflexivity. Defined.

Lemma dram_init_frame_witness :
  set_gd_ram_size 0x1C000000 ex_state_banks
  = set_gd_ram_size (gd_ram_size (set_gd_ram_size 0x1C000000 ex_state_banks))
      ex_state_banks.
Proof.
  exact (dram_init_frame 10 ex_state_banks _ 0 ex_banks_dram_init).
Defined.

Lemma dram_init_banksize_in_bounds_witness :
  dram_init_banksize 10 ex_state_zero_size <> Undefined /\
  dram_init_banksize 10 ex_state_banks <> Undefined.
Proof.
  split.
  - apply (dram_init_banksize_in_bounds 10 ex_state_zero_size); by_computation.
  - apply (dram_init_banksize_in_bounds 10 ex_state_banks); by_computation.
Defined.

Lemma check_keys_env_witness :
  check_keys 1 1 0 ex_state = ex_state /\
  env (check_keys 1 0 0x4000 ex_state) !! "bootcmd"%string
  = Some "run recoverybootcmd"%string /\
  env (check_keys 1 0 0x4000 ex_state) !! "preboot"%string = None.
Proof.
  split.
  - apply (proj1 (check_keys_env 1 1 0 ex_state)). reflexivity.
  - destruct (proj2 (check_keys_env 1 0 0x4000 ex_state)) as (Hb & Hp & _);
      [discriminate|].
    split; [exact Hb|exact Hp].
Defined.

Lemma ex_fdt_nodes :
  gpio_keys_nodes_at 1 ex_fdt_next 0x4000 (ex_fdt_next 0x4000 (-1) "gpio-keys")
    [100; 200; 300].
Proof. by_computation. Defined.

Lemma request_gpio_keys_first_match_witness :
  request_gpio_keys_loop 1 ex_fdt_next ex_fdt_subnode 10 0x4000
    (ex_fdt_next 0x4000 (-1) "gpio-keys") (-1) (-1)
  = Ok (210, 110).
Proof.
  destruct (request_gpio_keys_first_match 1 ex_fdt_next ex_fdt_subnode 0x4000
              [100; 200; 300] 10) as (Hrun & _).
  - exact ex_fdt_nodes.
  - simpl. lia.
  - exact Hrun.
Defined.

Lemma check_keys_dm_spec_witness :
  exists s',
    check_keys_dm 1 ex_fdt_next ex_fdt_subnode (list Z) Z 0 ex_gpio_request ex_gpio_value
      10 [] 0x4000 ex_state = Ok ([210; 110], s') /\
    env s' !! "bootcmd"%string = Some "run recoverybootcmd"%string /\
    env s' !! "preboot"%string = None.
Proof.
  destruct (check_keys_dm_spec 1 ex_fdt_next ex_fdt_subnode (list Z) Z 0 ex_gpio_request
              ex_gpio_value 0x4000 [100; 200; 300] 10 [] ex_state) as (_ & Hrun).
  - exact ex_fdt_nodes.
  - simpl. lia.
  - eexists. split; [apply Hrun; discriminate|]. split; reflexivity.
Defined.

Lemma serial_string_round_trip_witness :
  hex_value (list_ascii_of_string (sprintf_08x_08x 2 1)) = 2 * 2 ^ 32 + 1.
Proof.
  apply (serial_string_round_trip 2 1 2 1); lia.
Defined.
